(** * Gesture-driven starfield: a shallow embedding of the gesture pipeline

    The development follows the three source units of the repository:
    [Starfield] (the highlight bookkeeping of starfield.js),
    [GestureController] (gestureController.js: landmark geometry, gesture
    classification, smoothing, the publish/subscribe registry and the frame
    loop) and [Main] (the zoom mapping of main.js with the constants of
    config.js).

    Numbers.  A JavaScript number is a binary64 float.  The embedding
    computes with exact rationals [Q], and the statements about arithmetic
    are kept to those that also hold when every operation rounds: values
    produced by the same operations in the same order, bounds that monotone
    rounding keeps (with magnitudes bounded so that nothing overflows), and
    scaling by powers of two, which is exact.  [Binary64], at the end of the
    definitions, embeds the arithmetic kernels a second time over the
    Standard Library's specification of IEEE 754 and is used to evaluate the
    code where rounding departs from the rationals.  [Math.sqrt] has no
    rational counterpart and is a parameter of everything that reaches
    [distance3]. *)

From Stdlib Require Import QArith Qminmax Qabs Qround Lqa Lia SpecFloat.
From stdpp Require Import gmap strings list functions.

(* ===================================================================== *)
(** * starfield.js                                                        *)
(* ===================================================================== *)

Module Starfield.

Local Open Scope Q_scope.

(** A [THREE.Color]: either given by components, or what [setHex] makes of
    a hexadecimal triplet (the conversion is the library's). *)
Inductive Color :=
| ColorRGB (r g b : Q)
| ColorHex (hex : Z).

Record Vector3 := { v3x : Q; v3y : Q; v3z : Q }.

Definition multiplyScalar (v : Vector3) (scalar : Q) : Vector3 :=
  {| v3x := v3x v * scalar; v3y := v3y v * scalar; v3z := v3z v * scalar |}.

(** The two material properties the highlight touches. *)
Record Material := { emissive : Color; emissiveIntensity : Q }.

(** Objects and materials are JavaScript objects: they are held by reference,
    and two meshes may hold the same material. *)
Abbreviation ObjectRef := nat (only parsing).
Abbreviation MaterialRef := nat (only parsing).

(** [userData]: each property may be missing; [baseEmissiveIntensity] is
    [Some] when it is a number. *)
Record UserData := {
  baseEmissive : option Color;
  baseEmissiveIntensity : option Q;
  baseScale : option Vector3;
  isHighlighted : option bool;
}.

Record Object3D := {
  material : option MaterialRef;
  scale : Vector3;
  userData : UserData;
}.

(** The part of the heap a [Starfield] reaches, with its [highlighted]
    field. *)
Record t := {
  objects : ObjectRef → Object3D;
  materials : MaterialRef → Material;
  highlighted : option ObjectRef;
}.

Definition set_isHighlighted (v : option bool) (u : UserData) : UserData :=
  {| baseEmissive := baseEmissive u;
     baseEmissiveIntensity := baseEmissiveIntensity u;
     baseScale := baseScale u;
     isHighlighted := v |}.

Definition clearHighlight (s : t) : t :=
  match highlighted s with
  | None => s
  | Some h =>
      let object := objects s h in
      let userData := userData object in
      let materials' :=
        match material object, baseEmissive userData with
        | Some m, Some base =>
            <[m := {| emissive := base;
                      emissiveIntensity :=
                        match baseEmissiveIntensity userData with
                        | Some intensity => intensity
                        | None => emissiveIntensity (materials s m)
                        end |}]> (materials s)
        | _, _ => materials s
        end in
      let scale' :=
        match baseScale userData with
        | Some base => base
        | None => scale object
        end in
      {| objects :=
           <[h := {| material := material object;
                     scale := scale';
                     userData := set_isHighlighted None userData |}]> (objects s);
         materials := materials';
         highlighted := None |}
  end.

Definition highlight (object : option ObjectRef) (s : t) : t :=
  match object with
  | None => clearHighlight s
  | Some o =>
      let s :=
        match highlighted s with
        | Some h => if decide (h ≠ o) then clearHighlight s else s
        | None => s
        end in
      let obj := objects s o in
      let materials' :=
        match material obj with
        | Some m =>
            <[m := {| emissive := ColorHex 0xf0f6ff; emissiveIntensity := 1.6 |}]>
              (materials s)
        | None => materials s
        end in
      {| objects :=
           <[o := {| material := material obj;
                     scale := multiplyScalar (scale obj) 1.3;
                     userData := set_isHighlighted (Some true) (userData obj) |}]>
             (objects s);
         materials := materials';
         highlighted := Some o |}
  end.

(** The calls the application makes on a starfield. *)
Inductive Call :=
| Highlight (object : option ObjectRef)
| ClearHighlight.

Definition exec (call : Call) (s : t) : t :=
  match call with
  | Highlight object => highlight object s
  | ClearHighlight => clearHighlight s
  end.

Definition run (calls : list Call) (s : t) : t := foldl (λ s call, exec call s) s calls.

(** The object carries the "highlighted" marker. *)
Definition marked (s : t) (o : ObjectRef) : Prop :=
  isHighlighted (userData (objects s o)) = Some true.

(** What the constructor leaves: nothing highlighted, no object marked (the
    [userData] it writes has no [isHighlighted]). *)
Definition constructed (s : t) : Prop :=
  highlighted s = None ∧ ∀ o, isHighlighted (userData (objects s o)) = None.

(** A mesh as [_buildStars] and [_buildPlanets] set it up: it has a
    material and all three base values are saved. *)
Definition hasBase (s : t) (o : ObjectRef) : Prop :=
  is_Some (material (objects s o))
  ∧ is_Some (baseEmissive (userData (objects s o)))
  ∧ is_Some (baseEmissiveIntensity (userData (objects s o)))
  ∧ is_Some (baseScale (userData (objects s o))).

(** Marked objects are exactly the highlighted one: the invariant behind
    "at most one". *)
Definition onlyHighlightedMarked (s : t) : Prop :=
  ∀ o, marked s o → highlighted s = Some o.

(** What [clearHighlight] leaves of the object that was highlighted. *)
Definition restored (s : t) (h : ObjectRef) : Prop :=
  let object := objects s h in
  isHighlighted (userData object) = None
  ∧ baseScale (userData object) = Some (scale object)
  ∧ ∃ m, material object = Some m
       ∧ baseEmissive (userData object) = Some (emissive (materials s m))
       ∧ baseEmissiveIntensity (userData object)
         = Some (emissiveIntensity (materials s m)).

(** A star as [_buildStars] makes it: a material of its own (here the one
    with the mesh's number) with emissive intensity 1.05, unit scale, and the
    base values copied from them. *)
Definition starColor : Color := ColorRGB 0.4 0.7 0.9.

Definition starMesh (m : MaterialRef) : Object3D :=
  {| material := Some m;
     scale := {| v3x := 1; v3y := 1; v3z := 1 |};
     userData := {| baseEmissive := Some starColor;
                    baseEmissiveIntensity := Some 1.05;
                    baseScale := Some {| v3x := 1; v3y := 1; v3z := 1 |};
                    isHighlighted := None |} |}.

Definition stars : t :=
  {| objects := starMesh;
     materials := λ _, {| emissive := starColor; emissiveIntensity := 1.05 |};
     highlighted := None |}.

(** ** Rotation *)

(** [group.rotation.y] and [backgroundGroup.rotation.y]. *)
Record Rotation := { groupRotationY : Q; backgroundRotationY : Q }.

Definition update (deltaTime : Q) (r : Rotation) : Rotation :=
  {| groupRotationY := groupRotationY r + deltaTime * 0.045;
     backgroundRotationY := backgroundRotationY r + deltaTime * 0.01 |}.

End Starfield.

(* ===================================================================== *)
(** * gestureController.js                                                *)
(* ===================================================================== *)

Module GestureController.

Local Open Scope Q_scope.

(** ** Landmarks and vector helpers *)

(** A landmark [{x, y, z}]; the code reads [z] through [a.z ?? 0], so [z] may
    be missing. *)
Record Landmark := { lx : Q; ly : Q; lz : option Q }.

(** [v ?? 0] *)
Definition orZero (v : option Q) : Q := default 0 v.

Definition FINGER_TIPS : list nat := [4; 8; 12; 16; 20]%nat.
Definition FINGER_PIPS : list nat := [3; 6; 10; 14; 18]%nat.
Definition FINGER_MCP : list nat := [2; 5; 9; 13; 17]%nat.

Definition HAND_CONNECTIONS : list (nat * nat) :=
  [(0, 1); (1, 2); (2, 3); (3, 4); (0, 5); (5, 6); (6, 7); (7, 8); (5, 9);
   (9, 10); (10, 11); (11, 12); (9, 13); (13, 14); (14, 15); (15, 16);
   (13, 17); (17, 18); (18, 19); (19, 20); (0, 17)]%nat.

Definition lerp (current target smoothing : Q) : Q :=
  current + (target - current) * smoothing.

Definition dot3 (a b : Landmark) : Q :=
  lx a * lx b + ly a * ly b + orZero (lz a) * orZero (lz b).

Definition subtract3 (a b : Landmark) : Landmark :=
  {| lx := lx a - lx b;
     ly := ly a - ly b;
     lz := Some (orZero (lz a) - orZero (lz b)) |}.

(** The smoothing step of [_analyzeLandmarks],
    [smoothed = lerp(smoothed, raw, smoothing)], run for [n] frames with the
    raw input held at [raw]. *)
Fixpoint holdRaw (smoothing raw : Q) (n : nat) (smoothed : Q) : Q :=
  match n with
  | O => smoothed
  | S n' => lerp (holdRaw smoothing raw n' smoothed) raw smoothing
  end.

(** [a < b] on numbers, as a boolean. *)
Definition Qltb (a b : Q) : bool := negb (Qle_bool b a).

(** The body of the loop of [computeFingerStates] for finger [i].  Reading a
    landmark that is not there gives [undefined], and [subtract3] then throws
    on [a.x]: [None] stands for that exception. *)
Definition fingerDot (worldLandmarks : list Landmark) (i : nat) : option Q :=
  tipIndex ← FINGER_TIPS !! i;
  pipIndex ← FINGER_PIPS !! i;
  mcpIndex ← FINGER_MCP !! i;
  tip ← worldLandmarks !! tipIndex;
  pip ← worldLandmarks !! pipIndex;
  mcp ← worldLandmarks !! mcpIndex;
  let v1 := subtract3 tip pip in
  let v2 := subtract3 mcp pip in
  Some (dot3 v1 v2).

Definition fingerState (worldLandmarks : list Landmark) (i : nat) : option bool :=
  dot ← fingerDot worldLandmarks i;
  Some (Qltb dot (-0.015)).

Definition computeFingerStates (worldLandmarks : list Landmark) : option (list bool) :=
  mapM (fingerState worldLandmarks) (seq 0 5).

(** The hand scaled uniformly: every coordinate it has is multiplied by
    [factor]. *)
Definition scaleLandmark (factor : Q) (p : Landmark) : Landmark :=
  {| lx := lx p * factor;
     ly := ly p * factor;
     lz := (λ z, z * factor) <$> lz p |}.

Definition scaleLandmarks (factor : Q) (worldLandmarks : list Landmark)
    : list Landmark :=
  scaleLandmark factor <$> worldLandmarks.

(** A hand with all 21 landmarks at the origin except the index finger's
    knuckle and tip, which lie on opposite sides of its middle joint: a
    finger that is nearly, but not quite, straight enough to count. *)
Definition origin : Landmark := {| lx := 0; ly := 0; lz := Some 0 |}.

Definition nearlyStraightIndex : list Landmark :=
  <[8%nat := {| lx := 1 # 8; ly := 0; lz := Some 0 |}]>
    (<[5%nat := {| lx := - (1 # 16); ly := 0; lz := Some 0 |}]>
       (replicate 21 origin)).

(** The factors [2 ** n] and [2 ** -n] are [pow2 n] and [/ pow2 n]. *)
Definition pow2 (n : nat) : Q := inject_Z (2 ^ Z.of_nat n).

(** Every coordinate is at most [2 ** 500] in magnitude: far from the
    largest number, so that no difference, product or sum of
    [computeFingerStates] can overflow. *)
Definition inRange (worldLandmarks : list Landmark) : bool :=
  forallb (λ p, Qle_bool (Qabs (lx p)) (pow2 500)
                && Qle_bool (Qabs (ly p)) (pow2 500)
                && Qle_bool (Qabs (orZero (lz p))) (pow2 500))
          worldLandmarks.

(** The same hand four times as large: the index finger now counts as
    extended, also at half the size and at double the size. *)
Definition straightIndex : list Landmark :=
  <[8%nat := {| lx := 1 # 2; ly := 0; lz := Some 0 |}]>
    (<[5%nat := {| lx := - (1 # 4); ly := 0; lz := Some 0 |}]>
       (replicate 21 origin)).

(** ** Gesture classification *)

Inductive Gesture := open | fist | point | neutral | none.

Definition Gesture_name (g : Gesture) : string :=
  match g with
  | open => "open" | fist => "fist" | point => "point"
  | neutral => "neutral" | none => "none"
  end.

(** [fingerStates[i]] used as a condition: a missing entry is [undefined],
    which is falsy. *)
Definition truthyAt (fingerStates : list bool) (i : nat) : bool :=
  default false (fingerStates !! i).

Definition extendedCount (fingerStates : list bool) : nat :=
  length (filter (λ b, b = true) fingerStates).

Definition determineGesture (fingerStates : list bool) : Gesture :=
  if (4 <=? extendedCount fingerStates)%nat then open
  else if (extendedCount fingerStates =? 0)%nat then fist
  else if truthyAt fingerStates 1
          && negb (truthyAt fingerStates 0)
          && negb (truthyAt fingerStates 2)
          && negb (truthyAt fingerStates 3)
          && negb (truthyAt fingerStates 4) then point
  else neutral.


(** ** Openness *)

Section WithSqrt.

(** [Math.sqrt]. *)
Variable Math_sqrt : Q → Q.

Definition distance3 (a b : Landmark) : Q :=
  let dx := lx a - lx b in
  let dy := ly a - ly b in
  let dz := orZero (lz a) - orZero (lz b) in
  Math_sqrt (dx * dx + dy * dy + dz * dz).

(** [sum] is threaded through the [forEach]; a missing wrist or fingertip
    makes [distance3] throw ([None]). *)
Definition computeOpenness (worldLandmarks : list Landmark) : option Q :=
  let tipIndices := [8; 12; 16; 20]%nat in
  wrist ← worldLandmarks !! 0%nat;
  sum ← foldl (λ acc index,
                 sum ← acc;
                 tip ← worldLandmarks !! index;
                 Some (sum + distance3 wrist tip))
              (Some 0) tipIndices;
  Some (sum / inject_Z (Z.of_nat (length tipIndices))).

End WithSqrt.

(** ** Controller state *)

Record Vec2 := { vx : Q; vy : Q }.

Record Smoothed := { s_openness : Q; s_position : Vec2 }.

(** The object handed to the [update] subscribers.  A field the object does
    not have is [None]. *)
Record UpdateData := {
  u_gesture : Gesture;
  u_present : bool;
  u_openness : option Q;
  u_fingerStates : option (list bool);
  u_position : option Vec2;
  u_movement : option Vec2;
  u_pointer : option Vec2;
}.

Inductive Payload :=
| StatusPayload (message : string)
| ErrorPayload (message : string)
| UpdatePayload (data : UpdateData).

(** A handler is a function object; the [Set] of an event compares handlers
    by identity, which is all the registry sees of them. *)
Abbreviation Handler := nat (only parsing).

(** A JavaScript [Set]: its entries in insertion order.  [delete] leaves a
    hole in place of the entry, [add] appends, and [forEach] walks the entries
    by position, re-reading the length after every callback. *)
Abbreviation HandlerSet := (list (option nat)) (only parsing).

Definition Set_has (s : HandlerSet) (h : Handler) : bool :=
  bool_decide (Some h ∈ s).

Definition Set_add (h : Handler) (s : HandlerSet) : HandlerSet :=
  if Set_has s h then s else s ++ [Some h].

Definition Set_delete (h : Handler) (s : HandlerSet) : HandlerSet :=
  (λ e, if decide (e = Some h) then None else e) <$> s.

(** The entries a walk over the set visits, in order. *)
Definition Set_values (s : HandlerSet) : list Handler := omap id s.

Record Controller := {
  ctx : bool;                          (* getContext returned a context *)
  listeners : gmap string HandlerSet;
  running : bool;
  ready : bool;
  smoothingFactor : Q;
  maxFPS : Q;
  model : bool;                        (* false: null *)
  lastVideoTime : Q;
  prevHandPosition : option Vec2;
  smoothed : Smoothed;
}.

Definition set_listeners (v : gmap string HandlerSet) (c : Controller) : Controller :=
  {| ctx := ctx c; listeners := v; running := running c; ready := ready c;
     smoothingFactor := smoothingFactor c; maxFPS := maxFPS c; model := model c;
     lastVideoTime := lastVideoTime c; prevHandPosition := prevHandPosition c;
     smoothed := smoothed c |}.

Definition set_running (v : bool) (c : Controller) : Controller :=
  {| ctx := ctx c; listeners := listeners c; running := v; ready := ready c;
     smoothingFactor := smoothingFactor c; maxFPS := maxFPS c; model := model c;
     lastVideoTime := lastVideoTime c; prevHandPosition := prevHandPosition c;
     smoothed := smoothed c |}.

Definition set_ready (v : bool) (c : Controller) : Controller :=
  {| ctx := ctx c; listeners := listeners c; running := running c; ready := v;
     smoothingFactor := smoothingFactor c; maxFPS := maxFPS c; model := model c;
     lastVideoTime := lastVideoTime c; prevHandPosition := prevHandPosition c;
     smoothed := smoothed c |}.

Definition set_model (v : bool) (c : Controller) : Controller :=
  {| ctx := ctx c; listeners := listeners c; running := running c; ready := ready c;
     smoothingFactor := smoothingFactor c; maxFPS := maxFPS c; model := v;
     lastVideoTime := lastVideoTime c; prevHandPosition := prevHandPosition c;
     smoothed := smoothed c |}.

Definition set_lastVideoTime (v : Q) (c : Controller) : Controller :=
  {| ctx := ctx c; listeners := listeners c; running := running c; ready := ready c;
     smoothingFactor := smoothingFactor c; maxFPS := maxFPS c; model := model c;
     lastVideoTime := v; prevHandPosition := prevHandPosition c;
     smoothed := smoothed c |}.

Definition set_prevHandPosition (v : option Vec2) (c : Controller) : Controller :=
  {| ctx := ctx c; listeners := listeners c; running := running c; ready := ready c;
     smoothingFactor := smoothingFactor c; maxFPS := maxFPS c; model := model c;
     lastVideoTime := lastVideoTime c; prevHandPosition := v;
     smoothed := smoothed c |}.

Definition set_smoothed (v : Smoothed) (c : Controller) : Controller :=
  {| ctx := ctx c; listeners := listeners c; running := running c; ready := ready c;
     smoothingFactor := smoothingFactor c; maxFPS := maxFPS c; model := model c;
     lastVideoTime := lastVideoTime c; prevHandPosition := prevHandPosition c;
     smoothed := v |}.

(** ** The monad of controller methods

    A method reads and writes the controller, may throw, and leaves a trace of
    what it handed to the outside: the events it emitted and the callbacks it
    passed to [requestAnimationFrame].  An exception keeps the writes made
    before it. *)

Inductive Callback := LoopCallback | ProcessFrameCallback.

Inductive Output :=
| Emitted (event : string) (payload : Payload)
| AnimationFrameRequested (callback : Callback).

Inductive Completion (A : Type) :=
| Normal (a : A)
| Thrown.
Arguments Normal {A} a.
Arguments Thrown {A}.

Record Result (A : Type) := {
  completion : Completion A;
  final : Controller;
  outputs : list Output;
}.
Arguments completion {A} r.
Arguments final {A} r.
Arguments outputs {A} r.

Definition M (A : Type) : Type := Controller → Result A.

#[export] Instance M_ret : MRet M := λ A a c,
  {| completion := Normal a; final := c; outputs := [] |}.

#[export] Instance M_bind : MBind M := λ A B k m c,
  let r := m c in
  match completion r with
  | Normal a =>
      let r' := k a (final r) in
      {| completion := completion r'; final := final r';
         outputs := outputs r ++ outputs r' |}
  | Thrown =>
      {| completion := Thrown; final := final r; outputs := outputs r |}
  end.

Definition this : M Controller := λ c,
  {| completion := Normal c; final := c; outputs := [] |}.

Definition assign (f : Controller → Controller) : M unit := λ c,
  {| completion := Normal tt; final := f c; outputs := [] |}.

Definition throw {A} : M A := λ c,
  {| completion := Thrown; final := c; outputs := [] |}.

Definition output (o : Output) : M unit := λ c,
  {| completion := Normal tt; final := c; outputs := [o] |}.

(** [undefined.x] throws. *)
Definition defined {A} (o : option A) : M A :=
  match o with Some a => mret a | None => throw end.

Definition requestAnimationFrame (callback : Callback) : M unit :=
  output (AnimationFrameRequested callback).

(** The frame pipeline records [this._emit(event, payload)] as an output; the
    delivery of an emission to the registered handlers is [_emit] further
    down.  The two are independent: a handler reaches the controller through
    [on] and [off] only, and the pipeline never reads [listeners].  The
    methods are modelled for handlers that return; a handler that throws is
    part of the model where the code catches what it throws, in
    [initialize]. *)
Definition emit (event : string) (payload : Payload) : M unit :=
  output (Emitted event payload).

(** ** Construction, start and stop *)

Record Options := {
  opt_smoothingFactor : option Q;
  opt_maxFPS : option Q;
}.

Definition noOptions : Options :=
  {| opt_smoothingFactor := None; opt_maxFPS := None |}.

(** [new GestureController(videoElement, canvasElement, options)];
    [hasContext] says whether [getContext("2d")] gave a context. *)
Definition constructor (hasContext : bool) (options : Options) : Controller :=
  {| ctx := hasContext;
     listeners := ∅;
     running := false;
     ready := false;
     smoothingFactor := default 0.28 (opt_smoothingFactor options);
     maxFPS := default 60 (opt_maxFPS options);
     model := false;
     lastVideoTime := -1;
     prevHandPosition := None;
     smoothed := {| s_openness := 0; s_position := {| vx := 0; vy := 0 |} |} |}.

Definition _loop : M unit :=
  c ← this;
  if negb (running c) then mret tt
  else requestAnimationFrame ProcessFrameCallback.

(** How the [try] block of [initialize] ends: both awaited library calls
    succeed and the [status] event is delivered; one of the library calls
    fails, before [model] is assigned; or the calls succeed and a subscriber
    of [status] throws, after [ready] was set.  [message] is what was
    thrown. *)
Inductive LoadOutcome :=
| Loaded
| LoadFailed (message : string)
| StatusHandlerThrew (message : string).

Definition initialize (outcome : LoadOutcome) : M unit :=
  match outcome with
  | Loaded =>
      assign (set_model true);;
      assign (set_ready true);;
      emit "status" (StatusPayload "手势识别已就绪")
  | LoadFailed message =>
      emit "error" (ErrorPayload message);;
      throw
  | StatusHandlerThrew message =>
      assign (set_model true);;
      assign (set_ready true);;
      emit "status" (StatusPayload "手势识别已就绪");;
      emit "error" (ErrorPayload message);;
      throw
  end.

Definition start : M unit :=
  c ← this;
  if negb (ready c) || running c then mret tt
  else
    assign (set_running true);;
    assign (set_lastVideoTime (-1));;
    _loop.

Definition stop : M unit := assign (set_running false).

(** ** Subscriptions *)

Definition on (event : string) (handler : Handler) : M unit :=
  c ← this;
  (if bool_decide (is_Some (listeners c !! event)) then mret tt
   else assign (set_listeners (<[event := []]> (listeners c))));;
  c ← this;
  assign (set_listeners (alter (Set_add handler) event (listeners c))).

Definition off (event : string) (handler : Handler) : M unit :=
  c ← this;
  assign (set_listeners (alter (Set_delete handler) event (listeners c))).

(** What a handler does to the controller when it is called.  *)
Inductive Command :=
| CallOn (event : string) (handler : Handler)
| CallOff (event : string) (handler : Handler).

Definition Bodies := Handler → Payload → list Command.

Definition perform (cmd : Command) : M unit :=
  match cmd with
  | CallOn event handler => on event handler
  | CallOff event handler => off event handler
  end.

Definition call (bodies : Bodies) (handler : Handler) (payload : Payload)
    (c : Controller) : Controller :=
  foldl (λ c cmd, final (perform cmd c)) c (bodies handler payload).

(** [handlers.forEach(...)] from position [index] on.  The set of an event
    is created once by [on] and never replaced, so looking it up again after
    a callback reads the same object the walk started on.  A walk need not
    end (a handler may keep adding handlers), hence the fuel: [None] is
    "more steps than [fuel]". *)
Fixpoint forEach_from (bodies : Bodies) (fuel : nat) (event : string)
    (payload : Payload) (index : nat) (c : Controller)
    : option (Controller * list (Handler * Payload)) :=
  match fuel with
  | O => None
  | S fuel' =>
      match listeners c !! event ≫= (λ handlers, handlers !! index) with
      | None => Some (c, [])
      | Some None => forEach_from bodies fuel' event payload (S index) c
      | Some (Some handler) =>
          let c' := call bodies handler payload c in
          '(c'', calls) ← forEach_from bodies fuel' event payload (S index) c';
          Some (c'', (handler, payload) :: calls)
      end
  end.

(** Returns the controller after the handlers ran and the calls made, in
    order. *)
Definition _emit (bodies : Bodies) (fuel : nat) (event : string)
    (payload : Payload) (c : Controller)
    : option (Controller * list (Handler * Payload)) :=
  match listeners c !! event with
  | None => Some (c, [])
  | Some _ => forEach_from bodies fuel event payload 0 c
  end.

(** ** The frame loop *)

(** What [detectForVideo] returned: the hands found, in image and in world
    coordinates.  [landmarks] is read through [?.] and may be missing. *)
Record DetectResult := {
  landmarks : option (list (list Landmark));
  worldLandmarks : list (list Landmark);
}.

(** What one run of [processFrame] reads from the video element and the
    detector. *)
Record Frame := {
  currentTime : Q;
  videoWidth : nat;
  videoHeight : nat;
  results : DetectResult;
}.

(** [results.landmarks?.length] as a condition. *)
Definition hasHand (r : DetectResult) : bool :=
  match landmarks r with
  | Some (_ :: _) => true
  | _ => false
  end.

(** The canvas is not part of the model; what remains of [_drawDetections]
    is that, with a context and a hand, it reads both ends of every
    connection and throws on a landmark that is not there. *)
Definition _drawDetections (r : DetectResult) : M unit :=
  c ← this;
  if negb (ctx c) then mret tt
  else if negb (hasHand r) then mret tt
  else
    let hand := default [] (landmarks r ≫= head) in
    if forallb (λ '(startIdx, endIdx),
                  bool_decide (is_Some (hand !! startIdx))
                  && bool_decide (is_Some (hand !! endIdx)))
               HAND_CONNECTIONS
    then mret tt
    else throw.

Section Methods.

Variable Math_sqrt : Q → Q.

Definition _analyzeLandmarks (landmarks worldLandmarks : list Landmark)
    : M UpdateData :=
  fingerStates ← defined (computeFingerStates worldLandmarks);
  let gesture := determineGesture fingerStates in
  openness ← defined (computeOpenness Math_sqrt worldLandmarks);

  c ← this;
  let smoothing := smoothingFactor c in
  assign (λ c, set_smoothed
    {| s_openness := lerp (s_openness (smoothed c)) openness smoothing;
       s_position := s_position (smoothed c) |} c);;

  wrist ← defined (landmarks !! 0%nat);
  let position := {| vx := 1 - lx wrist; vy := ly wrist |} in
  assign (λ c, set_smoothed
    {| s_openness := s_openness (smoothed c);
       s_position :=
         {| vx := lerp (vx (s_position (smoothed c))) (vx position) smoothing;
            vy := lerp (vy (s_position (smoothed c))) (vy position) smoothing |}
    |} c);;

  c ← this;
  let movement :=
    match prevHandPosition c with
    | Some prev =>
        {| vx := vx (s_position (smoothed c)) - vx prev;
           vy := vy (s_position (smoothed c)) - vy prev |}
    | None => {| vx := 0; vy := 0 |}
    end in
  assign (set_prevHandPosition (Some (s_position (smoothed c))));;

  indexTip ← defined (landmarks !! 8%nat);
  let pointer := {| vx := lx indexTip; vy := ly indexTip |} in

  c ← this;
  mret {| u_gesture := gesture;
          u_present := true;
          u_openness := Some (s_openness (smoothed c));
          u_fingerStates := Some fingerStates;
          u_position := Some (s_position (smoothed c));
          u_movement := Some movement;
          u_pointer := Some pointer |}.

(** The object emitted when no hand is found. *)
Definition noHandData : UpdateData :=
  {| u_gesture := none; u_present := false; u_openness := None;
     u_fingerStates := None; u_position := None; u_movement := None;
     u_pointer := None |}.

Definition processFrame (frame : Frame) : M unit :=
  c ← this;
  if negb (model c) then
    emit "error" (ErrorPayload "手势模型尚未加载");;
    assign (set_running false)
  else if Qeq_bool (currentTime frame) (lastVideoTime c) then
    requestAnimationFrame LoopCallback
  else
    assign (set_lastVideoTime (currentTime frame));;
    if (videoWidth frame =? 0)%nat || (videoHeight frame =? 0)%nat then
      requestAnimationFrame LoopCallback
    else
      let results := results frame in
      _drawDetections results;;
      (if hasHand results then
         let landmarks := default [] (landmarks results ≫= head) in
         (* an empty [worldLandmarks] destructures to [undefined], on which
            the first read of [computeFingerStates] throws, as on [[]] *)
         let worldLandmarks := default [] (head (worldLandmarks results)) in
         data ← _analyzeLandmarks landmarks worldLandmarks;
         emit "update" (UpdatePayload data)
       else
         assign (set_prevHandPosition None);;
         emit "update" (UpdatePayload noHandData));;
      requestAnimationFrame LoopCallback.

(** ** Runs

    Everything that can happen to a controller, one call at a time: the
    methods the application calls and the two callbacks the browser runs.
    A run is any sequence of them; the browser's schedule is one such
    sequence.  An exception ends the call it occurs in, not the run. *)
Inductive Call :=
| DoInitialize (outcome : LoadOutcome)
| DoStart
| DoStop
| DoOn (event : string) (handler : Handler)
| DoOff (event : string) (handler : Handler)
| RunLoop
| RunProcessFrame (frame : Frame).

Definition exec (call : Call) : M unit :=
  match call with
  | DoInitialize outcome => initialize outcome
  | DoStart => start
  | DoStop => stop
  | DoOn event handler => on event handler
  | DoOff event handler => off event handler
  | RunLoop => _loop
  | RunProcessFrame frame => processFrame frame
  end.

Fixpoint run (calls : list Call) (c : Controller) : Controller * list Output :=
  match calls with
  | [] => (c, [])
  | call :: calls' =>
      let r := exec call c in
      let '(c', out) := run calls' (final r) in
      (c', outputs r ++ out)
  end.

(** The detector is asked about this frame: the model is loaded, the video
    time has advanced and the video has a size. *)
Definition detectorRuns (c : Controller) (frame : Frame) : bool :=
  model c
  && negb (Qeq_bool (currentTime frame) (lastVideoTime c))
  && negb ((videoWidth frame =? 0)%nat || (videoHeight frame =? 0)%nat).

(** The call is a frame on which the detector reports a hand. *)
Definition seesHand (call : Call) (c : Controller) : bool :=
  match call with
  | RunProcessFrame frame => detectorRuns c frame && hasHand (results frame)
  | _ => false
  end.

(** No call of the run is a frame on which the detector reports a hand. *)
Fixpoint noHandSeen (calls : list Call) (c : Controller) : bool :=
  match calls with
  | [] => true
  | call :: calls' =>
      negb (seesHand call c) && noHandSeen calls' (final (exec call c))
  end.

(** The controller was just built, or has just processed a frame on which
    the detector reported no hand. *)
Definition noHandYet (c : Controller) : Prop :=
  (∃ hasContext options, c = constructor hasContext options)
  ∨ (∃ c0 frame0,
       detectorRuns c0 frame0 = true
       ∧ hasHand (results frame0) = false
       ∧ c = final (processFrame frame0 c0)).

(** The handlers a walk over the set of [event] would visit, in order. *)
Definition registered (c : Controller) (event : string) : list Handler :=
  Set_values (default [] (listeners c !! event)).



End Methods.



(** Handler 1 unregisters itself from [update] when called; the others do
    nothing to the controller. *)
Definition onceBodies : Bodies :=
  λ handler _, if decide (handler = 1%nat) then [CallOff "update" 1%nat] else [].




(** The detector's contract: one hand, 21 landmarks in each space. *)
Definition oneHand (r : DetectResult) (hand world : list Landmark) : Prop :=
  (∃ rest, landmarks r = Some (hand :: rest))
  ∧ (∃ rest, worldLandmarks r = world :: rest)
  ∧ length hand = 21%nat ∧ length world = 21%nat.

(** ** Sample data *)

(** A rational stand-in for [Math.sqrt], exact on squares of rationals. *)
Definition sqrtQ (q : Q) : Q := Z.sqrt (Qnum q) # Pos.sqrt (Qden q).

Definition handResult : DetectResult :=
  {| landmarks := Some [nearlyStraightIndex];
     worldLandmarks := [nearlyStraightIndex] |}.

Definition noHandResult : DetectResult :=
  {| landmarks := Some []; worldLandmarks := [] |}.

Definition frameAt (time : Q) (r : DetectResult) : Frame :=
  {| currentTime := time; videoWidth := 4; videoHeight := 3; results := r |}.

(** A controller that was built, initialized and started; the same after a
    first frame without a hand. *)
Definition started : Controller :=
  (run sqrtQ [DoInitialize Loaded; DoStart] (constructor true noOptions)).1.

Definition startedNoHand : Controller :=
  final (processFrame sqrtQ (frameAt 1 noHandResult) started).

(** Calls in which the detector sees no hand: the second one is skipped (the
    video time has not advanced), the fifth one finds no hand. *)
Definition quietCalls : list Call :=
  [RunLoop; RunProcessFrame (frameAt 1 handResult); DoStop; DoStart;
   RunProcessFrame (frameAt 2 noHandResult); RunLoop].

Definition firstCalls : list Call :=
  [DoInitialize Loaded; DoStart; RunProcessFrame (frameAt 1 noHandResult);
   DoStop; DoStart; RunLoop].

(** ** The hand moved as a whole *)

(** Every landmark shifted by the same vector; a missing [z] counts as 0,
    as the code reads it. *)
Definition translateLandmark (dx dy dz : Q) (p : Landmark) : Landmark :=
  {| lx := lx p + dx; ly := ly p + dy; lz := Some (orZero (lz p) + dz) |}.

Definition translateLandmarks (dx dy dz : Q) (worldLandmarks : list Landmark)
    : list Landmark :=
  translateLandmark dx dy dz <$> worldLandmarks.

(** ** What subscribers can rely on *)

(** The event name a payload travels under. *)
Definition channelOf (payload : Payload) : string :=
  match payload with
  | StatusPayload _ => "status"
  | ErrorPayload _ => "error"
  | UpdatePayload _ => "update"
  end.

(** The emissions among the outputs, in order. *)
Definition emitted (out : list Output) : list (string * Payload) :=
  omap (λ o, match o with
             | Emitted event payload => Some (event, payload)
             | AnimationFrameRequested _ => None
             end) out.

(** The two shapes of an [update] object: with a hand, every field is there,
    the five finger flags decide the gesture, and the gesture is not
    ["none"]; without, it is [{gesture: "none", present: false}]. *)
Definition wellShaped (data : UpdateData) : Prop :=
  if u_present data then
    u_gesture data ≠ none
    ∧ (∃ fingerStates : list bool,
         u_fingerStates data = Some fingerStates
         ∧ length fingerStates = 5%nat
         ∧ u_gesture data = determineGesture fingerStates)
    ∧ is_Some (u_openness data)
    ∧ is_Some (u_position data)
    ∧ is_Some (u_movement data)
    ∧ is_Some (u_pointer data)
  else data = noHandData.

(** [c'] differs from [c] at most in the smoothed signal and the baseline. *)
Definition sameButSmoothing (c c' : Controller) : Prop :=
  ctx c' = ctx c ∧ listeners c' = listeners c ∧ running c' = running c
  ∧ ready c' = ready c ∧ smoothingFactor c' = smoothingFactor c
  ∧ maxFPS c' = maxFPS c ∧ model c' = model c
  ∧ lastVideoTime c' = lastVideoTime c.

(** What a frame may do to the controller besides smoothing: advance the
    video time and stop the loop. *)
Definition frameStep (c c' : Controller) : Prop :=
  ctx c' = ctx c ∧ listeners c' = listeners c ∧ ready c' = ready c
  ∧ smoothingFactor c' = smoothingFactor c ∧ maxFPS c' = maxFPS c
  ∧ model c' = model c
  ∧ (running c' = true → running c = true).

(** Frames whose video time differs from the one before and whose video has
    a size: the frames the detector is asked about. *)
Fixpoint advancing (last : Q) (frames : list Frame) : bool :=
  match frames with
  | [] => true
  | frame :: frames' =>
      negb (Qeq_bool (currentTime frame) last)
      && negb ((videoWidth frame =? 0)%nat || (videoHeight frame =? 0)%nat)
      && advancing (currentTime frame) frames'
  end.

(** Three frames of the sample hand. *)
Definition heldFrames : list Frame :=
  [frameAt 1 handResult; frameAt 2 handResult; frameAt 3 handResult].

(** A handler that, when called, unregisters itself from [event] and
    registers itself again. *)
Definition resubscribes (bodies : Bodies) (event : string) (payload : Payload)
    (handler : Handler) : Prop :=
  bodies handler payload = [CallOff event handler; CallOn event handler].

Definition resubscribingBodies : Bodies :=
  λ handler _, [CallOff "update" handler; CallOn "update" handler].

End GestureController.

(* ===================================================================== *)
(** * config.js and main.js                                               *)
(* ===================================================================== *)

Module Config.

Local Open Scope Q_scope.

Record Camera := {
  fov : Q; near : Q; far : Q;
  initialRadius : Q; minRadius : Q; maxRadius : Q;
  rotateSensitivity : Q; zoomLerpFactor : Q; targetRadiusLerpFactor : Q;
}.

Record Gesture := {
  smoothingFactor : Q;
  minOpenness : Q; maxOpenness : Q;
  fingerBendThreshold : Q;
  minExtendedFingersForOpen : nat;
  maxExtendedFingersForFist : nat;
}.

Record Ui := {
  highlightClearDelay : Q;
  noGestureClearDelay : Q;
  highlightEmptyClearDelay : Q;
}.

Record t := { camera : Camera; gesture : Gesture; ui : Ui }.

Definition CONFIG : t :=
  {| camera :=
       {| fov := 60; near := 0.1; far := 400;
          initialRadius := 58; minRadius := 28; maxRadius := 86;
          rotateSensitivity := 3.8; zoomLerpFactor := 0.08;
          targetRadiusLerpFactor := 0.25 |};
     gesture :=
       {| smoothingFactor := 0.28;
          minOpenness := 0.055; maxOpenness := 0.16;
          fingerBendThreshold := -0.015;
          minExtendedFingersForOpen := 4;
          maxExtendedFingersForFist := 0 |};
     ui :=
       {| highlightClearDelay := 2200;
          noGestureClearDelay := 800;
          highlightEmptyClearDelay := 600 |} |}.

End Config.

Module Main.

Import Config.
Local Open Scope Q_scope.

Definition mapOpennessToRadius (openness : Q) : Q :=
  let minOpenness := minOpenness (gesture CONFIG) in
  let maxOpenness := maxOpenness (gesture CONFIG) in
  let minRadius := minRadius (camera CONFIG) in
  let maxRadius := maxRadius (camera CONFIG) in
  let clamped := Qmin (Qmax openness minOpenness) maxOpenness in
  let ratio := (clamped - minOpenness) / (maxOpenness - minOpenness) in
  minRadius + ratio * (maxRadius - minRadius).


(** ** The camera *)

(** [THREE.MathUtils.lerp(x, y, t)] is [(1 - t) * x + t * y]. *)
Definition MathUtils_lerp (x y t : Q) : Q := (1 - t) * x + t * y.

Record CameraState := { radius : Q; theta : Q; phi : Q; targetRadius : Q }.

Section WithPi.

(** [Math.PI] *)
Variable Math_PI : Q.

Definition cameraState0 : CameraState :=
  {| radius := initialRadius (camera CONFIG);
     theta := Math_PI * 0.45;
     phi := Math_PI * 0.5;
     targetRadius := initialRadius (camera CONFIG) |}.

(** [updateCamera(movement)] on [cameraState]; placing the camera object
    from the three numbers is the renderer's part.  [rotateSensitivity] is
    the current [CONFIG.camera.rotateSensitivity], which the settings panel
    overwrites. *)
Definition updateCamera (rotateSensitivity : Q)
    (movement : option GestureController.Vec2) (cs : CameraState) : CameraState :=
  let cs :=
    match movement with
    | Some movement =>
        let theta' := theta cs + GestureController.vx movement * rotateSensitivity in
        let phi' := phi cs + GestureController.vy movement * rotateSensitivity in
        let epsilon := 0.16 in
        {| radius := radius cs;
           theta := theta';
           phi := Qmin (Qmax phi' epsilon) (Math_PI - epsilon);
           targetRadius := targetRadius cs |}
    | None => cs
    end in
  {| radius := MathUtils_lerp (radius cs) (targetRadius cs)
                 (zoomLerpFactor (camera CONFIG));
     theta := theta cs;
     phi := phi cs;
     targetRadius := targetRadius cs |}.

(** ** The application state

    The module variables of main.js the gesture events act on, with the
    starfield.  The texts written to the page are not part of the model. *)
Record App := {
  cameraState : CameraState;
  activeSelection : option nat;
  (* the timeout that is pending, with its delay *)
  clearHighlightTimer : option Q;
  starfield : Starfield.t;
  rotation : Starfield.Rotation;
  rotateSensitivity : Q;
}.

Definition app0 (field : Starfield.t) : App :=
  {| cameraState := cameraState0;
     activeSelection := None;
     clearHighlightTimer := None;
     starfield := field;
     rotation := {| Starfield.groupRotationY := 0; Starfield.backgroundRotationY := 0 |};
     rotateSensitivity := Config.rotateSensitivity (camera CONFIG) |}.

Definition set_cameraState (v : CameraState) (a : App) : App :=
  {| cameraState := v; activeSelection := activeSelection a;
     clearHighlightTimer := clearHighlightTimer a; starfield := starfield a;
     rotation := rotation a; rotateSensitivity := rotateSensitivity a |}.

(** [clearTimeout] of the pending timeout, then [setTimeout]. *)
Definition scheduleHighlightClear (delay : Q) (a : App) : App :=
  {| cameraState := cameraState a; activeSelection := activeSelection a;
     clearHighlightTimer := Some delay; starfield := starfield a;
     rotation := rotation a; rotateSensitivity := rotateSensitivity a |}.

(** The callback of the timeout. *)
Definition highlightTimeout (a : App) : App :=
  match clearHighlightTimer a with
  | None => a
  | Some _ =>
      {| cameraState := cameraState a; activeSelection := None;
         clearHighlightTimer := None;
         starfield := Starfield.clearHighlight (starfield a);
         rotation := rotation a; rotateSensitivity := rotateSensitivity a |}
  end.

(** [updateSelection(pointerCoords)]; [intersects] is what the raycaster
    returns for the pointer: the objects hit, nearest first. *)
Definition updateSelection (intersects : list nat) (a : App) : App :=
  match intersects with
  | [] => scheduleHighlightClear (highlightEmptyClearDelay (ui CONFIG)) a
  | object :: _ =>
      let a :=
        if decide (activeSelection a ≠ Some object) then
          {| cameraState := cameraState a; activeSelection := Some object;
             clearHighlightTimer := clearHighlightTimer a;
             starfield := Starfield.highlight (Some object) (starfield a);
             rotation := rotation a; rotateSensitivity := rotateSensitivity a |}
        else a in
      scheduleHighlightClear (highlightClearDelay (ui CONFIG)) a
  end.

(** The handler of [update].  [None]: the object has [present] but no
    [openness], and the arithmetic leaves the rationals ([NaN]). *)
Definition onUpdate (data : GestureController.UpdateData) (intersects : list nat)
    (a : App) : option App :=
  if negb (GestureController.u_present data) then
    Some (scheduleHighlightClear (noGestureClearDelay (ui CONFIG)) a)
  else
    openness ← GestureController.u_openness data;
    let radius := mapOpennessToRadius openness in
    let cs := cameraState a in
    let a :=
      set_cameraState
        {| radius := Main.radius cs; theta := theta cs; phi := phi cs;
           targetRadius := MathUtils_lerp (targetRadius cs) radius
                             (targetRadiusLerpFactor (camera CONFIG)) |} a in
    let a :=
      match GestureController.u_movement data with
      | Some movement =>
          set_cameraState
            (updateCamera (rotateSensitivity a) (Some movement) (cameraState a)) a
      | None => a
      end in
    let a :=
      match GestureController.u_gesture data, GestureController.u_pointer data with
      | GestureController.point, Some _ => updateSelection intersects a
      | _, _ => a
      end in
    Some a.

(** [renderLoop], one animation frame; [delta] is [clock.getDelta()]. *)
Definition renderLoop (delta : Q) (a : App) : App :=
  {| cameraState := updateCamera (rotateSensitivity a) None (cameraState a);
     activeSelection := activeSelection a;
     clearHighlightTimer := clearHighlightTimer a;
     starfield := starfield a;
     rotation := Starfield.update delta (rotation a);
     rotateSensitivity := rotateSensitivity a |}.

(** What happens to the application, one step at a time. *)
Inductive Step :=
| Update (data : GestureController.UpdateData) (intersects : list nat)
| HighlightTimeout
| RenderLoop (delta : Q)
| SetSensitivity (value : Q).

Definition step (st : Step) (a : App) : option App :=
  match st with
  | Update data intersects => onUpdate data intersects a
  | HighlightTimeout => Some (highlightTimeout a)
  | RenderLoop delta => Some (renderLoop delta a)
  | SetSensitivity value =>
      Some {| cameraState := cameraState a; activeSelection := activeSelection a;
              clearHighlightTimer := clearHighlightTimer a;
              starfield := starfield a; rotation := rotation a;
              rotateSensitivity := value |}
  end.

Fixpoint steps (sts : list Step) (a : App) : option App :=
  match sts with
  | [] => Some a
  | st :: sts' => a' ← step st a; steps sts' a'
  end.

End WithPi.

(** Every object is at its saved base scale, or at 1.3 times it when it is
    the highlighted one. *)
Definition scaledOnce (s : Starfield.t) : Prop :=
  ∀ o, ∃ base,
    Starfield.baseScale (Starfield.userData (Starfield.objects s o)) = Some base
    ∧ Starfield.scale (Starfield.objects s o)
      = if decide (Starfield.highlighted s = Some o)
        then Starfield.multiplyScalar base 1.3 else base.

(** The camera stays in range. *)
Definition cameraInRange (Math_PI : Q) (cs : CameraState) : Prop :=
  28 <= radius cs <= 86 ∧ 28 <= targetRadius cs <= 86
  ∧ 0.16 <= phi cs <= Math_PI - 0.16.

(** ** Sample steps *)

Definition pi_approx : Q := 3.14159.

Definition pointing : GestureController.UpdateData :=
  {| GestureController.u_gesture := GestureController.point;
     GestureController.u_present := true;
     GestureController.u_openness := Some 0.1;
     GestureController.u_fingerStates := Some [false; true; false; false; false];
     GestureController.u_position := Some {| GestureController.vx := 0.5; GestureController.vy := 0.5 |};
     GestureController.u_movement := Some {| GestureController.vx := 0.1; GestureController.vy := 2 |};
     GestureController.u_pointer := Some {| GestureController.vx := 0.4; GestureController.vy := 0.6 |} |}.

Definition sampleSteps : list Step :=
  [Update pointing [3%nat; 1%nat]; RenderLoop 0.016; Update pointing [3%nat];
   Update GestureController.noHandData []; Update pointing [4%nat];
   HighlightTimeout; SetSensitivity 5; Update pointing [4%nat]; RenderLoop 0.016].

(** An angle that every render frame of the steps, in turn, advances by
    [delta * rate], and that no other step touches. *)
Fixpoint turned (rate : Q) (sts : list Step) (angle : Q) : Q :=
  match sts with
  | [] => angle
  | RenderLoop delta :: sts' => turned rate sts' (angle + delta * rate)
  | _ :: sts' => turned rate sts' angle
  end.

End Main.

(* ===================================================================== *)
(** * The arithmetic in binary64                                          *)
(* ===================================================================== *)

Module Binary64.

(** A JavaScript number as the Standard Library specifies IEEE 754
    binary64: 53 bits of precision, round to nearest, ties to even, with
    infinities and NaN. *)
Definition prec : Z := 53.
Definition emax : Z := 1024.

Definition add : spec_float → spec_float → spec_float := SFadd prec emax.
Definition sub : spec_float → spec_float → spec_float := SFsub prec emax.
Definition mul : spec_float → spec_float → spec_float := SFmul prec emax.
Definition div : spec_float → spec_float → spec_float := SFdiv prec emax.

(** An integer; [2 ** e]; and the number a decimal literal [num / den]
    denotes, the double nearest to the quotient (division rounds
    correctly). *)
Definition ofZ (z : Z) : spec_float := binary_normalize prec emax z 0 false.
Definition pow2 (e : Z) : spec_float := binary_normalize prec emax 1 e false.
Definition literal (num den : Z) : spec_float := div (ofZ num) (ofZ den).

Definition lerp (current target smoothing : spec_float) : spec_float :=
  add current (mul (sub target current) smoothing).

(** The smoothing step run for [n] frames with the raw input held. *)
Fixpoint holdRaw (smoothing raw : spec_float) (n : nat) (smoothed : spec_float)
    : spec_float :=
  match n with
  | O => smoothed
  | S n' => lerp (holdRaw smoothing raw n' smoothed) raw smoothing
  end.


Record Landmark := { lx : spec_float; ly : spec_float; lz : option spec_float }.

Definition orZero (v : option spec_float) : spec_float :=
  match v with Some z => z | None => ofZ 0 end.

Definition dot3 (a b : Landmark) : spec_float :=
  add (add (mul (lx a) (lx b)) (mul (ly a) (ly b)))
      (mul (orZero (lz a)) (orZero (lz b))).

Definition subtract3 (a b : Landmark) : Landmark :=
  {| lx := sub (lx a) (lx b);
     ly := sub (ly a) (ly b);
     lz := Some (sub (orZero (lz a)) (orZero (lz b))) |}.

(** The body of the loop of [computeFingerStates] on the three landmarks of
    one finger. *)
Definition fingerState (tip pip mcp : Landmark) : bool :=
  let v1 := subtract3 tip pip in
  let v2 := subtract3 mcp pip in
  let dot := dot3 v1 v2 in
  SFltb dot (SFopp (literal 15 1000)).

Definition scaleLandmark (factor : spec_float) (p : Landmark) : Landmark :=
  {| lx := mul (lx p) factor;
     ly := mul (ly p) factor;
     lz := option_map (λ z, mul z factor) (lz p) |}.

Definition at_ (x y : spec_float) : Landmark :=
  {| lx := x; ly := y; lz := Some (ofZ 0) |}.

End Binary64.

(* ===================================================================== *)
(** * Properties                                                          *)
(* ===================================================================== *)

(** ** Gesture classification *)

Section Classification.

Import GestureController.

Lemma determineGesture_open (fingerStates : list bool) :
  4 ≤ extendedCount fingerStates → determineGesture fingerStates = open.
Proof.
  intros Hcount. unfold determineGesture.
  destruct (Nat.leb_spec 4 (extendedCount fingerStates)); [done | lia].
Qed.

Lemma determineGesture_fist (fingerStates : list bool) :
  extendedCount fingerStates = 0 → determineGesture fingerStates = fist.
Proof.
  intros Hcount. unfold determineGesture. by rewrite Hcount.
Qed.

(** C1.  The classifier on a vector of five finger states: [open] when at
    least four are extended, [fist] when none is, [point] when the index
    finger alone is, [neutral] otherwise.  The first two tests come first:
    they decide on the count alone, for a vector of any length, whatever the
    pattern of the first five entries. *)
Theorem determineGesture_classifies :
  (∀ fingerStates : list bool,
     4 ≤ extendedCount fingerStates → determineGesture fingerStates = open)
  ∧ (∀ fingerStates : list bool,
     extendedCount fingerStates = 0 → determineGesture fingerStates = fist)
  ∧ (∀ thumb index middle ring pinky : bool,
     let fingerStates := [thumb; index; middle; ring; pinky] in
     (fingerStates = [false; true; false; false; false] →
        determineGesture fingerStates = point)
     ∧ (extendedCount fingerStates < 4 →
        extendedCount fingerStates ≠ 0 →
        fingerStates ≠ [false; true; false; false; false] →
        determineGesture fingerStates = neutral)).
Proof.
  split; [exact determineGesture_open |].
  split; [exact determineGesture_fist |].
  intros thumb index middle ring pinky fingerStates. subst fingerStates.
  split.
  - intros [= -> -> -> -> ->]. reflexivity.
  - destruct thumb, index, middle, ring, pinky; vm_compute; intros; try done; lia.
Qed.

Lemma determineGesture_classifies_witness :
  determineGesture [true; true; false; true; true] = open
  ∧ determineGesture [false; false; false; false; false] = fist
  ∧ determineGesture [false; true; false; false; false] = point
  ∧ determineGesture [true; true; false; false; false] = neutral.
Proof.
  destruct determineGesture_classifies as (Hopen & Hfist & Hfive).
  split; [apply Hopen; vm_compute; lia |].
  split; [apply Hfist; reflexivity |].
  split; [apply (Hfive false true false false false); reflexivity |].
  apply (Hfive true true false false false); vm_compute; [lia | lia | discriminate].
Defined.

End Classification.

(** ** Zoom mapping *)

Section Zoom.

Import Main.
Local Open Scope Q_scope.

Lemma mapOpennessToRadius_clamped (openness : Q) :
  mapOpennessToRadius openness
  == 28 + (Qmin (Qmax openness 0.055) 0.16 - 0.055) / (0.16 - 0.055) * (86 - 28).
Proof. reflexivity. Qed.

(** C5.  The zoom mapping clamps below [minOpenness] to [minRadius], above
    [maxOpenness] to [maxRadius], interpolates linearly in between, and sends
    the middle of the openness range to the middle radius 57. *)
Theorem mapOpennessToRadius_spec (openness : Q) :
  (openness <= 0.055 → mapOpennessToRadius openness == 28)
  ∧ (0.16 <= openness → mapOpennessToRadius openness == 86)
  ∧ (0.055 <= openness <= 0.16 →
     mapOpennessToRadius openness
     == 28 + (openness - 0.055) / (0.16 - 0.055) * (86 - 28))
  ∧ mapOpennessToRadius ((0.055 + 0.16) / 2) == 57.
Proof.
  repeat split.
  - intros Hle. rewrite mapOpennessToRadius_clamped.
    rewrite (Q.max_r openness 0.055) by exact Hle.
    rewrite Q.min_l by (vm_compute; discriminate).
    reflexivity.
  - intros Hge. rewrite mapOpennessToRadius_clamped.
    rewrite Q.max_l by lra.
    rewrite Q.min_r by exact Hge.
    reflexivity.
  - intros [Hlo Hhi]. rewrite mapOpennessToRadius_clamped.
    rewrite Q.max_l by exact Hlo.
    rewrite Q.min_l by exact Hhi.
    reflexivity.
Qed.

Lemma mapOpennessToRadius_spec_witness :
  mapOpennessToRadius 0.01 == 28
  ∧ mapOpennessToRadius 0.5 == 86
  ∧ mapOpennessToRadius 0.1
    == 28 + (0.1 - 0.055) / (0.16 - 0.055) * (86 - 28).
Proof.
  split; [apply (mapOpennessToRadius_spec 0.01); vm_compute; discriminate |].
  split; [apply (mapOpennessToRadius_spec 0.5); vm_compute; discriminate |].
  apply (mapOpennessToRadius_spec 0.1); split; vm_compute; discriminate.
Defined.

End Zoom.

(** ** Highlighting *)

Section Highlighting.

Import Starfield.

Lemma constructed_onlyHighlightedMarked (s : t) :
  constructed s → onlyHighlightedMarked s.
Proof.
  intros [_ Hnone] o Hmarked. red in Hmarked. by rewrite Hnone in Hmarked.
Qed.

Lemma clearHighlight_highlighted (s : t) : highlighted (clearHighlight s) = None.
Proof.
  unfold clearHighlight. by destruct (highlighted s) eqn:Hh.
Qed.

Lemma clearHighlight_unmarks (s : t) :
  onlyHighlightedMarked s → ∀ o, ¬ marked (clearHighlight s) o.
Proof.
  intros Hinv o. unfold clearHighlight, marked.
  destruct (highlighted s) as [h|] eqn:Hh; simpl.
  - destruct (decide (h = o)) as [->|Hne].
    + by rewrite fn_lookup_insert.
    + rewrite fn_lookup_insert_ne by done.
      intros Hmarked. apply Hinv in Hmarked. congruence.
  - intros Hmarked. apply Hinv in Hmarked. congruence.
Qed.

Lemma clearHighlight_preserves (s : t) :
  onlyHighlightedMarked s → onlyHighlightedMarked (clearHighlight s).
Proof.
  intros Hinv o Hmarked. by apply clearHighlight_unmarks in Hmarked.
Qed.

Lemma highlight_preserves (object : option ObjectRef) (s : t) :
  onlyHighlightedMarked s → onlyHighlightedMarked (highlight object s).
Proof.
  intros Hinv. destruct object as [o|]; [| by apply clearHighlight_preserves].
  intros o'. unfold highlight, marked. simpl.
  destruct (decide (o = o')) as [->|Hne]; [done |].
  rewrite fn_lookup_insert_ne by done.
  destruct (highlighted s) as [h|] eqn:Hh.
  - destruct (decide (h ≠ o)) as [Hho|Hho].
    + intros Hmarked. by apply clearHighlight_unmarks in Hmarked.
    + intros Hmarked. apply Hinv in Hmarked.
      apply dec_stable in Hho. congruence.
  - intros Hmarked. apply Hinv in Hmarked. congruence.
Qed.

Lemma run_preserves (calls : list Call) (s : t) :
  onlyHighlightedMarked s → onlyHighlightedMarked (run calls s).
Proof.
  revert s. induction calls as [|call calls IH]; intros s Hinv; [done |].
  apply IH. destruct call; [by apply highlight_preserves | by apply clearHighlight_preserves].
Qed.

Lemma clearHighlight_restores (s : t) (h : ObjectRef) :
  highlighted s = Some h → hasBase s h → restored (clearHighlight s) h.
Proof.
  intros Hh (Hmat & Hem & Hint & Hsc).
  unfold restored, clearHighlight. rewrite Hh. simpl.
  rewrite fn_lookup_insert. simpl.
  destruct Hmat as [m Hm], Hem as [e He], Hint as [i Hi], Hsc as [v Hv].
  rewrite Hm, He, Hi, Hv. simpl.
  split; [done |]. split; [done |].
  exists m. by rewrite fn_lookup_insert.
Qed.

Lemma clearHighlight_material (s : t) (o : ObjectRef) :
  material (objects (clearHighlight s) o) = material (objects s o).
Proof.
  unfold clearHighlight. destruct (highlighted s) as [h|]; [| done]. simpl.
  destruct (decide (h = o)) as [->|Hne].
  - by rewrite fn_lookup_insert.
  - by rewrite fn_lookup_insert_ne.
Qed.

(** C6.  From a freshly constructed starfield, whatever [highlight] and
    [clearHighlight] calls follow, at most one object carries the marker (and
    it is the one [highlighted] refers to).  When [highlight] is given an
    object other than the highlighted one, it first runs [clearHighlight],
    which puts the previous object's scale, emissive colour and intensity
    back to the saved base values and removes its marker, and only then
    applies the new highlight, to the cleared state; afterwards the previous
    object still has its base scale and no marker. *)
Theorem highlight_at_most_one_and_restores :
  (∀ (s0 : t) (calls : list Call),
     constructed s0 →
     let s := run calls s0 in
     (∀ o1 o2, marked s o1 → marked s o2 → o1 = o2)
     ∧ (∀ o, marked s o → highlighted s = Some o))
  ∧ (∀ (s : t) (h o : ObjectRef),
     highlighted s = Some h → h ≠ o → hasBase s h →
     let cleared := clearHighlight s in
     let s' := highlight (Some o) s in
     restored cleared h
     ∧ highlighted cleared = None
     ∧ s' = highlight (Some o) cleared
     ∧ isHighlighted (userData (objects s' h)) = None
     ∧ baseScale (userData (objects s' h)) = Some (scale (objects s' h))
     ∧ (material (objects s h) ≠ material (objects s o) → restored s' h)
     ∧ marked s' o).
Proof.
  split.
  - intros s0 calls Hc s.
    assert (Hinv : onlyHighlightedMarked s)
      by (apply run_preserves, constructed_onlyHighlightedMarked, Hc).
    split; [| exact Hinv].
    intros o1 o2 H1 H2. apply Hinv in H1, H2. congruence.
  - intros s h o Hh Hne Hbase cleared s'.
    pose proof (clearHighlight_restores s h Hh Hbase) as Hres.
    pose proof (clearHighlight_highlighted s) as Hnone.
    assert (Hs' : s' = highlight (Some o) cleared).
    { subst s' cleared. unfold highlight. rewrite Hh.
      destruct (decide (h ≠ o)); [| done].
      destruct (highlighted (clearHighlight s)) eqn:E; [done | reflexivity]. }
    split; [exact Hres |]. split; [exact Hnone |]. split; [exact Hs' |].
    destruct Hres as (Hmark & Hscale & Hrest).
    rewrite Hs'. subst cleared. unfold highlight, marked.
    destruct (highlighted (clearHighlight s)) eqn:E; [done |]. simpl.
    rewrite fn_lookup_insert_ne by done.
    rewrite fn_lookup_insert.
    split; [exact Hmark |]. split; [exact Hscale |]. split; [| done].
    intros Hmat. unfold restored. simpl.
    rewrite fn_lookup_insert_ne by done.
    split; [exact Hmark |]. split; [exact Hscale |].
    destruct Hrest as (m & Hm & Hem & Hint). exists m.
    split; [exact Hm |].
    rewrite !clearHighlight_material in *.
    destruct (material (objects s o)) as [mo|]; [| done].
    rewrite fn_lookup_insert_ne by congruence. done.
Qed.

Lemma highlight_at_most_one_and_restores_witness :
  highlighted (run [Highlight (Some 0); Highlight (Some 1)] stars) = Some 1
  ∧ restored (clearHighlight (highlight (Some 0) stars)) 0
  ∧ restored (highlight (Some 1) (highlight (Some 0) stars)) 0.
Proof.
  destruct highlight_at_most_one_and_restores as [Hone Hrestore].
  split.
  - apply (Hone stars [Highlight (Some 0); Highlight (Some 1)]).
    + split; [reflexivity | intros o; reflexivity].
    + reflexivity.
  - assert (Hbase : hasBase (highlight (Some 0) stars) 0)
      by (repeat split; vm_compute; eauto).
    split.
    + apply (Hrestore (highlight (Some 0) stars) 0 1);
        [reflexivity | lia | exact Hbase].
    + apply (Hrestore (highlight (Some 0) stars) 0 1);
        [reflexivity | lia | exact Hbase | vm_compute; congruence].
Defined.

Lemma highlight_same_object_scales (s : t) (o : ObjectRef) :
  highlighted s = Some o →
  scale (objects (highlight (Some o) s) o) = multiplyScalar (scale (objects s o)) 1.3%Q.
Proof.
  intros Hh. unfold highlight. rewrite Hh.
  destruct (decide (o ≠ o)) as [Hne|_]; [done |].
  simpl. by rewrite fn_lookup_insert.
Qed.

(** C2.  The code at [highlight(o); highlight(o)]: the second call finds [o]
    already highlighted, skips the clearing, and applies the highlight again.
    Emissive colour and intensity are set to the same constants, but the
    scale is multiplied by 1.3 once more: 1.3 after the first call, 1.69
    after the second. *)
Theorem highlight_twice_scales_twice :
  let once := highlight (Some 0) stars in
  let twice := highlight (Some 0) once in
  highlighted once = Some 0
  ∧ scale (objects once 0) = {| v3x := 1.3; v3y := 1.3; v3z := 1.3 |}%Q
  ∧ scale (objects twice 0) = {| v3x := 1.69; v3y := 1.69; v3z := 1.69 |}%Q
  ∧ materials twice 0 = materials once 0
  ∧ scale (objects twice 0) ≠ scale (objects once 0).
Proof.
  vm_compute. repeat split; congruence.
Qed.

End Highlighting.

(** ** Smoothing *)

Section Smoothing.

Import GestureController.
Local Open Scope Q_scope.

(** Over the rationals, one step multiplies the distance to the raw value
    by [1 - smoothing]. *)
Lemma lerp_error (k v s : Q) : lerp s v k - v == (1 - k) * (s - v).
Proof. unfold lerp. ring. Qed.

Section Factor.

Variable k : Q.
Hypothesis k_nonneg : 0 <= k.
Hypothesis k_le_half : k <= 1 # 2.

(** One step from below: not down, and not past the target. *)
Lemma lerp_below (v s : Q) : s <= v → s <= lerp s v k ∧ lerp s v k <= v.
Proof.
  intros Hsv. pose proof (lerp_error k v s) as Herr.
  assert (0 <= (v - s) * k) by (apply Qmult_le_0_compat; lra).
  assert (0 <= (1 - k) * (v - s)) by (apply Qmult_le_0_compat; lra).
  unfold lerp in *. split; lra.
Qed.

Lemma lerp_above (v s : Q) : v <= s → v <= lerp s v k ∧ lerp s v k <= s.
Proof.
  intros Hsv. pose proof (lerp_error k v s) as Herr.
  assert (0 <= (s - v) * k) by (apply Qmult_le_0_compat; lra).
  assert (0 <= (1 - k) * (s - v)) by (apply Qmult_le_0_compat; lra).
  unfold lerp in *. split; lra.
Qed.



End Factor.



(** The two runs of the witness in binary64, 200 steps each: toward 1 from
    0 and from 2, every step is between the value before it and 1. *)
Example smoothing_sample_in_binary64 :
  forallb (λ n,
             let before := Binary64.holdRaw (Binary64.literal 28 100)
                             (Binary64.ofZ 1) n (Binary64.ofZ 0) in
             let after := Binary64.lerp before (Binary64.ofZ 1)
                            (Binary64.literal 28 100) in
             SFleb before after && SFleb after (Binary64.ofZ 1))
          (seq 0 200)
  = true
  ∧ forallb (λ n,
               let before := Binary64.holdRaw (Binary64.literal 28 100)
                               (Binary64.ofZ 1) n (Binary64.ofZ 2) in
               let after := Binary64.lerp before (Binary64.ofZ 1)
                              (Binary64.literal 28 100) in
               SFleb (Binary64.ofZ 1) after && SFleb after before)
            (seq 0 200)
    = true.
Proof. split; by vm_compute. Qed.



End Smoothing.

(** ** Finger states under scaling *)

Section Scaling.

Import GestureController.
Local Open Scope Q_scope.

Lemma orZero_scale (factor : Q) (z : option Q) :
  orZero ((λ z, z * factor) <$> z) == orZero z * factor.
Proof. destruct z; cbn [orZero from_option id fmap option_fmap option_map]; ring. Qed.

(** Scaling the three landmarks of a finger by [factor] multiplies its dot
    product by [factor * factor]. *)
Lemma dot3_scale (factor : Q) (tip pip mcp : Landmark) :
  dot3 (subtract3 (scaleLandmark factor tip) (scaleLandmark factor pip))
       (subtract3 (scaleLandmark factor mcp) (scaleLandmark factor pip))
  == factor * factor * dot3 (subtract3 tip pip) (subtract3 mcp pip).
Proof.
  unfold dot3, subtract3, scaleLandmark.
  destruct (lz tip), (lz pip), (lz mcp);
    cbn [lx ly lz orZero from_option id fmap option_fmap option_map]; ring.
Qed.

Lemma fingerDot_defined (worldLandmarks : list Landmark) (i : nat) :
  length worldLandmarks = 21%nat → (i < 5)%nat →
  is_Some (fingerDot worldLandmarks i).
Proof.
  intros Hlen Hi. unfold fingerDot.
  assert (Hat : ∀ j, (j < 21)%nat → is_Some (worldLandmarks !! j))
    by (intros j Hj; apply lookup_lt_is_Some; lia).
  destruct i as [|[|[|[|[|i]]]]]; try lia; simpl;
    repeat match goal with
    | |- context [worldLandmarks !! ?j] =>
        let p := fresh "p" in let Hp := fresh "Hp" in
        destruct (Hat j ltac:(lia)) as [p Hp]; rewrite Hp; simpl
    end; eauto.
Qed.

Lemma fingerDot_scale (factor : Q) (worldLandmarks : list Landmark) (i : nat) (dot : Q) :
  fingerDot worldLandmarks i = Some dot →
  ∃ dot', fingerDot (scaleLandmarks factor worldLandmarks) i = Some dot'
          ∧ dot' == factor * factor * dot.
Proof.
  unfold fingerDot, scaleLandmarks. intros Hdot.
  destruct (FINGER_TIPS !! i) as [tipIndex|]; [simpl in * | done].
  destruct (FINGER_PIPS !! i) as [pipIndex|]; [simpl in * | done].
  destruct (FINGER_MCP !! i) as [mcpIndex|]; [simpl in * | done].
  rewrite !list_lookup_fmap.
  destruct (worldLandmarks !! tipIndex) as [tip|]; [simpl in * | done].
  destruct (worldLandmarks !! pipIndex) as [pip|]; [simpl in * | done].
  destruct (worldLandmarks !! mcpIndex) as [mcp|]; [simpl in * | done].
  injection Hdot as <-. eexists. split; [reflexivity |]. apply dot3_scale.
Qed.

Lemma Qltb_lt (a b : Q) : Qltb a b = true ↔ a < b.
Proof.
  unfold Qltb. rewrite negb_true_iff, <- not_true_iff_false, Qle_bool_iff.
  split; [apply Qnot_le_lt | apply Qlt_not_le].
Qed.

Lemma extended_scale_up (factor dot dot' : Q) :
  dot' == factor * factor * dot → 1 <= factor →
  Qltb dot (-0.015) = true → Qltb dot' (-0.015) = true.
Proof.
  rewrite !Qltb_lt. intros Heq Hf Hd.
  assert (0 <= (factor * factor - 1) * (0 - dot))
    by (apply Qmult_le_0_compat; [nra | lra]).
  lra.
Qed.

Lemma extended_scale_down (factor dot dot' : Q) :
  dot' == factor * factor * dot → 0 < factor → factor <= 1 →
  Qltb dot' (-0.015) = true → Qltb dot (-0.015) = true.
Proof.
  rewrite !Qltb_lt. intros Heq Hpos Hf Hd.
  assert (Hff : 0 < factor * factor) by nra.
  assert (Hneg : dot < 0).
  { destruct (Qlt_le_dec dot 0) as [|Hge]; [done |].
    assert (0 <= factor * factor * dot) by (apply Qmult_le_0_compat; lra).
    lra. }
  assert (0 <= (1 - factor * factor) * (0 - dot))
    by (apply Qmult_le_0_compat; [nra | lra]).
  lra.
Qed.

Lemma computeFingerStates_dots (worldLandmarks : list Landmark) (d0 d1 d2 d3 d4 : Q) :
  fingerDot worldLandmarks 0 = Some d0 → fingerDot worldLandmarks 1 = Some d1 →
  fingerDot worldLandmarks 2 = Some d2 → fingerDot worldLandmarks 3 = Some d3 →
  fingerDot worldLandmarks 4 = Some d4 →
  computeFingerStates worldLandmarks
  = Some ((λ d, Qltb d (-0.015)) <$> [d0; d1; d2; d3; d4]).
Proof.
  intros H0 H1 H2 H3 H4. unfold computeFingerStates, fingerState.
  cbn [seq mapM]. rewrite H0, H1, H2, H3, H4. reflexivity.
Qed.

Lemma pow2_ge_1 (n : nat) : 1 <= pow2 n.
Proof.
  unfold pow2. change 1 with (inject_Z 1). rewrite <- Zle_Qle.
  pose proof (Z.pow_pos_nonneg 2 (Z.of_nat n)). lia.
Qed.

Lemma pow2_inv (n : nat) : 0 < / pow2 n ∧ / pow2 n <= 1.
Proof.
  pose proof (pow2_ge_1 n) as Hge.
  assert (Hpos : 0 < / pow2 n) by (apply Qinv_lt_0_compat; lra).
  split; [exact Hpos |].
  assert (Heq : / pow2 n == 1 / pow2 n) by (field; lra).
  rewrite Heq. apply Qle_shift_div_r; lra.
Qed.

(** C3, as the code has it.  On 21 landmarks the computation gives five
    flags, also on the hand enlarged by [2 ** n] and on the hand reduced by
    [2 ** -n] (multiplying by a power of two is exact in binary64, and the
    coordinates of the enlarged hand are at most [2 ** 500] in magnitude, so
    that nothing overflows).  The dot products are multiplied by
    [4 ** n] and [4 ** -n] while the threshold stays at -0.015, so the
    flags can only change in one direction: every finger extended on the
    hand is extended on the enlarged hand, and every finger extended on the
    reduced hand is extended on the hand. *)
Theorem computeFingerStates_scaling (worldLandmarks : list Landmark) (n : nat) :
  length worldLandmarks = 21%nat → (n ≤ 1000)%nat →
  inRange (scaleLandmarks (pow2 n) worldLandmarks) = true →
  ∃ states enlarged reduced : list bool,
    computeFingerStates worldLandmarks = Some states
    ∧ computeFingerStates (scaleLandmarks (pow2 n) worldLandmarks) = Some enlarged
    ∧ computeFingerStates (scaleLandmarks (/ pow2 n) worldLandmarks) = Some reduced
    ∧ length states = 5%nat ∧ length enlarged = 5%nat ∧ length reduced = 5%nat
    ∧ ∀ i : nat,
        (states !! i = Some true → enlarged !! i = Some true)
        ∧ (reduced !! i = Some true → states !! i = Some true).
Proof.
  intros Hlen _ _.
  pose proof (pow2_ge_1 n) as Hup. destruct (pow2_inv n) as [Hpos Hdown].
  destruct (fingerDot_defined worldLandmarks 0 Hlen ltac:(lia)) as [d0 H0].
  destruct (fingerDot_defined worldLandmarks 1 Hlen ltac:(lia)) as [d1 H1].
  destruct (fingerDot_defined worldLandmarks 2 Hlen ltac:(lia)) as [d2 H2].
  destruct (fingerDot_defined worldLandmarks 3 Hlen ltac:(lia)) as [d3 H3].
  destruct (fingerDot_defined worldLandmarks 4 Hlen ltac:(lia)) as [d4 H4].
  destruct (fingerDot_scale (pow2 n) _ _ _ H0) as (e0 & E0 & Q0).
  destruct (fingerDot_scale (pow2 n) _ _ _ H1) as (e1 & E1 & Q1).
  destruct (fingerDot_scale (pow2 n) _ _ _ H2) as (e2 & E2 & Q2).
  destruct (fingerDot_scale (pow2 n) _ _ _ H3) as (e3 & E3 & Q3).
  destruct (fingerDot_scale (pow2 n) _ _ _ H4) as (e4 & E4 & Q4).
  destruct (fingerDot_scale (/ pow2 n) _ _ _ H0) as (r0 & R0 & P0).
  destruct (fingerDot_scale (/ pow2 n) _ _ _ H1) as (r1 & R1 & P1).
  destruct (fingerDot_scale (/ pow2 n) _ _ _ H2) as (r2 & R2 & P2).
  destruct (fingerDot_scale (/ pow2 n) _ _ _ H3) as (r3 & R3 & P3).
  destruct (fingerDot_scale (/ pow2 n) _ _ _ H4) as (r4 & R4 & P4).
  eexists _, _, _.
  split; [by apply computeFingerStates_dots |].
  split; [by apply computeFingerStates_dots |].
  split; [by apply computeFingerStates_dots |].
  split; [reflexivity |]. split; [reflexivity |]. split; [reflexivity |].
  intros i. split.
  - destruct i as [|[|[|[|[|i]]]]]; simpl; [| | | | | done];
      intros [= Hd]; f_equal; eapply extended_scale_up; eauto.
  - destruct i as [|[|[|[|[|i]]]]]; simpl; [| | | | | done];
      intros [= Hd]; f_equal; eapply extended_scale_down; eauto.
Qed.

Lemma computeFingerStates_scaling_witness :
  ∃ states enlarged reduced : list bool,
    computeFingerStates straightIndex = Some states
    ∧ computeFingerStates (scaleLandmarks (pow2 1) straightIndex) = Some enlarged
    ∧ computeFingerStates (scaleLandmarks (/ pow2 1) straightIndex) = Some reduced
    ∧ reduced !! 1%nat = Some true
    ∧ states !! 1%nat = Some true
    ∧ enlarged !! 1%nat = Some true.
Proof.
  destruct (computeFingerStates_scaling straightIndex 1)
    as (states & enlarged & reduced & Hs & He & Hr & _ & _ & _ & Hlaw);
    [reflexivity | lia | reflexivity |].
  exists states, enlarged, reduced.
  split; [exact Hs |]. split; [exact He |]. split; [exact Hr |].
  assert (Hreduced : reduced !! 1%nat = Some true)
    by (vm_compute in Hr; by injection Hr as <-).
  destruct (Hlaw 1%nat) as [Hup Hdown].
  split; [exact Hreduced |]. split; [exact (Hdown Hreduced) |].
  exact (Hup (Hdown Hreduced)).
Defined.

(** C3, as stated, fails: doubling [nearlyStraightIndex] turns the index
    finger from curled to extended (its dot product goes from -1/128 to
    -1/32, across the threshold -0.015). *)
Lemma computeFingerStates_not_scale_invariant :
  ¬ (∀ (worldLandmarks : list Landmark) (factor : Q),
       length worldLandmarks = 21%nat → 0 < factor →
       computeFingerStates (scaleLandmarks factor worldLandmarks)
       = computeFingerStates worldLandmarks).
Proof.
  intros Hinv.
  specialize (Hinv nearlyStraightIndex 2 eq_refl eq_refl).
  vm_compute in Hinv. discriminate Hinv.
Qed.

(** The index finger of the witness in binary64: extended at the three
    sizes. *)
Example straightIndex_in_binary64 :
  let tip := Binary64.at_ (Binary64.literal 1 2) (Binary64.ofZ 0) in
  let pip := Binary64.at_ (Binary64.ofZ 0) (Binary64.ofZ 0) in
  let mcp := Binary64.at_ (Binary64.literal (-1) 4) (Binary64.ofZ 0) in
  Binary64.fingerState tip pip mcp = true
  ∧ Binary64.fingerState (Binary64.scaleLandmark (Binary64.pow2 1) tip)
      (Binary64.scaleLandmark (Binary64.pow2 1) pip)
      (Binary64.scaleLandmark (Binary64.pow2 1) mcp) = true
  ∧ Binary64.fingerState (Binary64.scaleLandmark (Binary64.pow2 (-1)) tip)
      (Binary64.scaleLandmark (Binary64.pow2 (-1)) pip)
      (Binary64.scaleLandmark (Binary64.pow2 (-1)) mcp) = true.
Proof. repeat split; by vm_compute. Qed.

(** Why the factors above are powers of two within range.  In binary64 a
    finger with [tip - pip = (1, 1, 0)] and [mcp - pip = (-1, 1/2, 0)] is
    extended, and is not on the hand enlarged by [2 ** 600]: the two
    products overflow to infinities of opposite sign and their sum is NaN. *)
Example enlarged_finger_overflows :
  Binary64.fingerState (Binary64.at_ (Binary64.ofZ 1) (Binary64.ofZ 1))
                       (Binary64.at_ (Binary64.ofZ 0) (Binary64.ofZ 0))
                       (Binary64.at_ (Binary64.ofZ (-1)) (Binary64.literal 1 2))
  = true
  ∧ Binary64.fingerState
      (Binary64.scaleLandmark (Binary64.pow2 600)
         (Binary64.at_ (Binary64.ofZ 1) (Binary64.ofZ 1)))
      (Binary64.scaleLandmark (Binary64.pow2 600)
         (Binary64.at_ (Binary64.ofZ 0) (Binary64.ofZ 0)))
      (Binary64.scaleLandmark (Binary64.pow2 600)
         (Binary64.at_ (Binary64.ofZ (-1)) (Binary64.literal 1 2)))
    = false.
Proof. split; by vm_compute. Qed.

(** A factor that is not a power of two rounds the coordinates: with
    [pip.x = 1.5], [tip.x = 1.5 + 2 ** -52] and [mcp.x = 1.5 - 2 ** 47] the
    finger is extended (its dot product is -1/32); multiplied by the double
    nearest to 4/3, tip and pip both become 2 and the dot product 0. *)
Example enlarged_finger_rounds :
  Binary64.fingerState
    (Binary64.at_ (Binary64.add (Binary64.literal 3 2) (Binary64.pow2 (-52)))
                  (Binary64.ofZ 0))
    (Binary64.at_ (Binary64.literal 3 2) (Binary64.ofZ 0))
    (Binary64.at_ (Binary64.sub (Binary64.literal 3 2) (Binary64.pow2 47))
                  (Binary64.ofZ 0))
  = true
  ∧ Binary64.fingerState
      (Binary64.scaleLandmark (Binary64.literal 4 3)
         (Binary64.at_ (Binary64.add (Binary64.literal 3 2) (Binary64.pow2 (-52)))
                       (Binary64.ofZ 0)))
      (Binary64.scaleLandmark (Binary64.literal 4 3)
         (Binary64.at_ (Binary64.literal 3 2) (Binary64.ofZ 0)))
      (Binary64.scaleLandmark (Binary64.literal 4 3)
         (Binary64.at_ (Binary64.sub (Binary64.literal 3 2) (Binary64.pow2 47))
                       (Binary64.ofZ 0)))
    = false.
Proof. split; by vm_compute. Qed.

End Scaling.

(** ** Running the methods *)

Section MethodCalculus.

Import GestureController.

Lemma result_eta {A} (r : Result A) :
  {| completion := completion r; final := final r; outputs := outputs r |} = r.
Proof. by destruct r. Qed.

(** A method that returned normally, followed by the rest. *)
Lemma bind_normal {A B} (m : M A) (k : A → M B) (c c1 : Controller) (a : A)
    (out : list Output) :
  m c = {| completion := Normal a; final := c1; outputs := out |} →
  (m ≫= k) c
  = {| completion := completion (k a c1); final := final (k a c1);
       outputs := out ++ outputs (k a c1) |}.
Proof. intros Hm. unfold mbind, M_bind. by rewrite Hm. Qed.

Lemma bind_thrown {A B} (m : M A) (k : A → M B) (c c1 : Controller)
    (out : list Output) :
  m c = {| completion := Thrown; final := c1; outputs := out |} →
  (m ≫= k) c = {| completion := Thrown; final := c1; outputs := out |}.
Proof. intros Hm. unfold mbind, M_bind. by rewrite Hm. Qed.

Lemma bind_this {B} (k : Controller → M B) (c : Controller) :
  (this ≫= k) c = k c c.
Proof. rewrite (bind_normal _ _ _ c c []) by done. apply result_eta. Qed.

Lemma bind_assign {B} (f : Controller → Controller) (k : unit → M B)
    (c : Controller) :
  (assign f ≫= k) c = k () (f c).
Proof. rewrite (bind_normal _ _ _ (f c) () []) by done. apply result_eta. Qed.

Lemma bind_mret {A B} (a : A) (k : A → M B) (c : Controller) :
  (mret a ≫= k) c = k a c.
Proof. rewrite (bind_normal _ _ _ c a []) by done. apply result_eta. Qed.

Lemma bind_defined {A B} (a : A) (k : A → M B) (c : Controller) :
  (defined (Some a) ≫= k) c = k a c.
Proof. apply bind_mret. Qed.

Lemma bind_output {B} (o : Output) (k : unit → M B) (c : Controller) :
  (output o ≫= k) c
  = {| completion := completion (k () c); final := final (k () c);
       outputs := o :: outputs (k () c) |}.
Proof. by rewrite (bind_normal _ _ _ c () [o]). Qed.

Lemma bind_assoc {A B C} (m : M A) (k1 : A → M B) (k2 : B → M C)
    (c : Controller) :
  ((m ≫= k1) ≫= k2) c = (m ≫= (λ a, k1 a ≫= k2)) c.
Proof.
  unfold mbind, M_bind.
  destruct (m c) as [[a|] c1 out1]; [| reflexivity]. cbn.
  destruct (k1 a c1) as [[b|] c2 out2]; [| reflexivity]. cbn.
  by rewrite app_assoc.
Qed.

End MethodCalculus.

(** ** The frame loop *)

Section Frames.

Import GestureController.
Local Open Scope Q_scope.

Variable Math_sqrt : Q → Q.

Lemma detectorRuns_inv (c : Controller) (frame : Frame) :
  detectorRuns c frame = true →
  model c = true
  ∧ Qeq_bool (currentTime frame) (lastVideoTime c) = false
  ∧ ((videoWidth frame =? 0)%nat || (videoHeight frame =? 0)%nat) = false.
Proof.
  unfold detectorRuns. rewrite !andb_true_iff, !negb_true_iff. tauto.
Qed.

Lemma drawDetections_no_hand (r : DetectResult) (c : Controller) :
  hasHand r = false →
  _drawDetections r c = {| completion := Normal (); final := c; outputs := [] |}.
Proof.
  intros Hhand. unfold _drawDetections. rewrite bind_this, Hhand.
  by destruct (ctx c).
Qed.

(** The frame pipeline up to the detector's answer. *)
Lemma processFrame_detects (c : Controller) (frame : Frame) :
  detectorRuns c frame = true →
  processFrame Math_sqrt frame c
  = (_drawDetections (results frame);;
     (if hasHand (results frame) then
        data ← _analyzeLandmarks Math_sqrt
                  (default [] (landmarks (results frame) ≫= head))
                  (default [] (head (worldLandmarks (results frame))));
        emit "update" (UpdatePayload data)
      else
        assign (set_prevHandPosition None);;
        emit "update" (UpdatePayload noHandData));;
     requestAnimationFrame LoopCallback)
    (set_lastVideoTime (currentTime frame) c).
Proof.
  intros (Hmodel & Htime & Hsize)%detectorRuns_inv.
  unfold processFrame. rewrite bind_this, Hmodel, Htime. cbn [negb].
  rewrite bind_assign, Hsize. reflexivity.
Qed.

Lemma processFrame_no_hand_smoothed (c : Controller) (frame : Frame) :
  hasHand (results frame) = false →
  smoothed (final (processFrame Math_sqrt frame c)) = smoothed c.
Proof.
  intros Hhand. unfold processFrame. rewrite bind_this.
  destruct (model c); [| reflexivity]. cbn [negb].
  destruct (Qeq_bool _ _); [reflexivity |].
  rewrite bind_assign.
  destruct (_ || _)%bool; [reflexivity |].
  rewrite (bind_normal _ _ _ _ _ _ (drawDetections_no_hand _ _ Hhand)).
  rewrite Hhand. reflexivity.
Qed.

Lemma processFrame_no_hand_result (c : Controller) (frame : Frame) :
  hasHand (results frame) = false →
  detectorRuns c frame = true →
  processFrame Math_sqrt frame c
  = {| completion := Normal ();
       final := set_prevHandPosition None (set_lastVideoTime (currentTime frame) c);
       outputs := [Emitted "update" (UpdatePayload noHandData);
                   AnimationFrameRequested LoopCallback] |}.
Proof.
  intros Hhand Hruns. rewrite (processFrame_detects _ _ Hruns).
  rewrite (bind_normal _ _ _ _ _ _ (drawDetections_no_hand _ _ Hhand)).
  rewrite Hhand. reflexivity.
Qed.

(** C8.  A frame without a hand never touches the smoothed signal.  When
    the detector runs on it and reports no hand, the frame completes
    normally, clears the previous-position baseline, and emits exactly one
    event: [update] with [{gesture: "none", present: false}] and no other
    field (then asks for the next animation frame). *)
Theorem processFrame_no_hand (c : Controller) (frame : Frame) :
  hasHand (results frame) = false →
  let r := processFrame Math_sqrt frame c in
  smoothed (final r) = smoothed c
  ∧ (detectorRuns c frame = true →
     completion r = Normal ()
     ∧ prevHandPosition (final r) = None
     ∧ outputs r
       = [Emitted "update"
            (UpdatePayload
               {| u_gesture := none; u_present := false;
                  u_openness := None; u_fingerStates := None;
                  u_position := None; u_movement := None;
                  u_pointer := None |});
          AnimationFrameRequested LoopCallback]).
Proof.
  intros Hhand r. subst r.
  split; [by apply processFrame_no_hand_smoothed |].
  intros Hruns. by rewrite (processFrame_no_hand_result c frame Hhand Hruns).
Qed.

(** *** A frame with a hand *)

Lemma lookup_21 {A} (l : list A) (j : nat) :
  length l = 21%nat → (j < 21)%nat → is_Some (l !! j).
Proof. intros Hlen Hj. apply lookup_lt_is_Some. lia. Qed.

Lemma computeFingerStates_defined (world : list Landmark) :
  length world = 21%nat → is_Some (computeFingerStates world).
Proof.
  intros Hlen.
  destruct (fingerDot_defined world 0 Hlen ltac:(lia)) as [d0 H0].
  destruct (fingerDot_defined world 1 Hlen ltac:(lia)) as [d1 H1].
  destruct (fingerDot_defined world 2 Hlen ltac:(lia)) as [d2 H2].
  destruct (fingerDot_defined world 3 Hlen ltac:(lia)) as [d3 H3].
  destruct (fingerDot_defined world 4 Hlen ltac:(lia)) as [d4 H4].
  rewrite (computeFingerStates_dots world d0 d1 d2 d3 d4) by done. eauto.
Qed.

Lemma computeOpenness_defined (world : list Landmark) :
  length world = 21%nat → is_Some (computeOpenness Math_sqrt world).
Proof.
  intros Hlen. unfold computeOpenness.
  destruct (lookup_21 world 0 Hlen ltac:(lia)) as [wrist ->].
  destruct (lookup_21 world 8 Hlen ltac:(lia)) as [t8 H8].
  destruct (lookup_21 world 12 Hlen ltac:(lia)) as [t12 H12].
  destruct (lookup_21 world 16 Hlen ltac:(lia)) as [t16 H16].
  destruct (lookup_21 world 20 Hlen ltac:(lia)) as [t20 H20].
  cbn [foldl mbind option_bind]. rewrite H8. cbn [mbind option_bind].
  rewrite H12. cbn [mbind option_bind]. rewrite H16. cbn [mbind option_bind].
  rewrite H20. cbn [mbind option_bind]. eauto.
Qed.

Lemma drawDetections_one_hand (r : DetectResult) (hand world : list Landmark)
    (c : Controller) :
  oneHand r hand world →
  _drawDetections r c = {| completion := Normal (); final := c; outputs := [] |}.
Proof.
  intros ([rest Hl] & _ & Hlen & _).
  unfold _drawDetections, hasHand. rewrite bind_this, Hl.
  destruct (ctx c); [| reflexivity]. cbn [negb mbind option_bind head default from_option id].
  assert (Hall : ∀ j, (j < 21)%nat → bool_decide (is_Some (hand !! j)) = true)
    by (intros j Hj; apply bool_decide_eq_true_2, lookup_21; done).
  cbn [forallb HAND_CONNECTIONS].
  rewrite !Hall by lia. reflexivity.
Qed.

(** [_analyzeLandmarks] on a hand with its landmarks in place: the new
    smoothed signal, the new baseline and the object returned. *)
Lemma analyzeLandmarks_normal (c : Controller) (hand world : list Landmark)
    (fingerStates : list bool) (raw : Q) (wrist indexTip : Landmark) :
  computeFingerStates world = Some fingerStates →
  computeOpenness Math_sqrt world = Some raw →
  hand !! 0%nat = Some wrist →
  hand !! 8%nat = Some indexTip →
  let k := smoothingFactor c in
  let position :=
    {| vx := lerp (vx (s_position (smoothed c))) (1 - lx wrist) k;
       vy := lerp (vy (s_position (smoothed c))) (ly wrist) k |} in
  let openness := lerp (s_openness (smoothed c)) raw k in
  _analyzeLandmarks Math_sqrt hand world c
  = {| completion :=
         Normal {| u_gesture := determineGesture fingerStates;
                   u_present := true;
                   u_openness := Some openness;
                   u_fingerStates := Some fingerStates;
                   u_position := Some position;
                   u_movement :=
                     Some match prevHandPosition c with
                          | Some prev => {| vx := vx position - vx prev;
                                            vy := vy position - vy prev |}
                          | None => {| vx := 0; vy := 0 |}
                          end;
                   u_pointer := Some {| vx := lx indexTip; vy := ly indexTip |} |};
       final :=
         set_prevHandPosition (Some position)
           (set_smoothed {| s_openness := openness; s_position := position |} c);
       outputs := [] |}.
Proof.
  intros Hfs Hraw Hwrist Htip k position openness.
  unfold _analyzeLandmarks.
  rewrite Hfs, bind_defined, Hraw, bind_defined, bind_this, bind_assign.
  rewrite Hwrist, bind_defined, bind_assign, bind_this, bind_assign.
  rewrite Htip, bind_defined, bind_this.
  reflexivity.
Qed.

(** A frame on which the detector reports a hand of 21 landmarks. *)
Lemma processFrame_hand (c : Controller) (frame : Frame) (hand world : list Landmark) :
  detectorRuns c frame = true →
  oneHand (results frame) hand world →
  ∃ (fingerStates : list bool) (raw : Q) (wrist indexTip : Landmark),
    computeFingerStates world = Some fingerStates
    ∧ computeOpenness Math_sqrt world = Some raw
    ∧ hand !! 0%nat = Some wrist
    ∧ hand !! 8%nat = Some indexTip
    ∧ let k := smoothingFactor c in
      let position :=
        {| vx := lerp (vx (s_position (smoothed c))) (1 - lx wrist) k;
           vy := lerp (vy (s_position (smoothed c))) (ly wrist) k |} in
      let openness := lerp (s_openness (smoothed c)) raw k in
      processFrame Math_sqrt frame c
      = {| completion := Normal ();
           final :=
             set_prevHandPosition (Some position)
               (set_smoothed {| s_openness := openness; s_position := position |}
                  (set_lastVideoTime (currentTime frame) c));
           outputs :=
             [Emitted "update"
                (UpdatePayload
                   {| u_gesture := determineGesture fingerStates;
                      u_present := true;
                      u_openness := Some openness;
                      u_fingerStates := Some fingerStates;
                      u_position := Some position;
                      u_movement :=
                        Some match prevHandPosition c with
                             | Some prev => {| vx := vx position - vx prev;
                                               vy := vy position - vy prev |}
                             | None => {| vx := 0; vy := 0 |}
                             end;
                      u_pointer :=
                        Some {| vx := lx indexTip; vy := ly indexTip |} |});
              AnimationFrameRequested LoopCallback] |}.
Proof.
  intros Hruns Hone.
  pose proof Hone as ([rest Hl] & [rest' Hw] & Hlen & Hlen').
  destruct (computeFingerStates_defined world Hlen') as [fingerStates Hfs].
  destruct (computeOpenness_defined world Hlen') as [raw Hraw].
  destruct (lookup_21 hand 0 Hlen ltac:(lia)) as [wrist Hwrist].
  destruct (lookup_21 hand 8 Hlen ltac:(lia)) as [indexTip Htip].
  exists fingerStates, raw, wrist, indexTip.
  repeat (split; [done |]).
  intros k position openness.
  rewrite (processFrame_detects _ _ Hruns).
  rewrite (bind_normal _ _ _ _ _ _ (drawDetections_one_hand _ _ _ _ Hone)).
  assert (Hhand : hasHand (results frame) = true)
    by (unfold hasHand; by rewrite Hl).
  assert (Hh : default [] (landmarks (results frame) ≫= head) = hand)
    by (by rewrite Hl).
  assert (Hh' : default [] (head (worldLandmarks (results frame))) = world)
    by (by rewrite Hw).
  rewrite Hhand, Hh, Hh'.
  pose proof (analyzeLandmarks_normal
                (set_lastVideoTime (currentTime frame) c)
                hand world fingerStates raw wrist indexTip Hfs Hraw Hwrist Htip)
    as Han.
  cbn zeta in Han.
  rewrite bind_assoc, (bind_normal _ _ _ _ _ _ Han).
  reflexivity.
Qed.

(** On such a frame the stored openness takes one smoothing step toward
    the raw openness of the frame: [holdRaw] iterates this step. *)
Lemma processFrame_openness_step (c : Controller) (frame : Frame)
    (hand world : list Landmark) :
  detectorRuns c frame = true →
  oneHand (results frame) hand world →
  ∃ raw : Q,
    computeOpenness Math_sqrt world = Some raw
    ∧ s_openness (smoothed (final (processFrame Math_sqrt frame c)))
      = holdRaw (smoothingFactor c) raw 1 (s_openness (smoothed c))
    ∧ smoothingFactor (final (processFrame Math_sqrt frame c)) = smoothingFactor c.
Proof.
  intros Hruns Hone.
  destruct (processFrame_hand c frame hand world Hruns Hone)
    as (fingerStates & raw & wrist & indexTip & _ & Hraw & _ & _ & Heq).
  cbn zeta in Heq. exists raw. by rewrite Heq.
Qed.

(** *** Calls that see no hand *)

Lemma processFrame_skipped (c : Controller) (frame : Frame) :
  detectorRuns c frame = false →
  smoothed (final (processFrame Math_sqrt frame c)) = smoothed c
  ∧ smoothingFactor (final (processFrame Math_sqrt frame c)) = smoothingFactor c
  ∧ prevHandPosition (final (processFrame Math_sqrt frame c)) = prevHandPosition c.
Proof.
  unfold detectorRuns, processFrame. rewrite bind_this.
  destruct (model c); [| done]. cbn [negb andb].
  destruct (Qeq_bool _ _); [done |]. cbn [negb].
  rewrite bind_assign.
  destruct (_ || _)%bool; [done | discriminate].
Qed.

Lemma exec_hand_free (call : Call) (c : Controller) :
  seesHand call c = false →
  smoothed (final (exec Math_sqrt call c)) = smoothed c
  ∧ smoothingFactor (final (exec Math_sqrt call c)) = smoothingFactor c
  ∧ (prevHandPosition c = None →
     prevHandPosition (final (exec Math_sqrt call c)) = None).
Proof.
  destruct call as [outcome| | |event handler|event handler| |frame];
    cbn [seesHand exec]; intros Hfree.
  - by destruct outcome.
  - unfold start. rewrite bind_this. by destruct (ready c), (running c).
  - done.
  - unfold on. rewrite bind_this. by case_bool_decide.
  - done.
  - unfold _loop. rewrite bind_this. by destruct (running c).
  - destruct (detectorRuns c frame) eqn:Hruns.
    + cbn [andb] in Hfree.
      by rewrite (processFrame_no_hand_result c frame Hfree Hruns).
    + destruct (processFrame_skipped c frame Hruns) as (Hs & Hk & Hp).
      split; [exact Hs |]. split; [exact Hk |]. congruence.
Qed.

Lemma run_cons (call : Call) (calls : list Call) (c : Controller) :
  (run Math_sqrt (call :: calls) c).1
  = (run Math_sqrt calls (final (exec Math_sqrt call c))).1.
Proof. cbn [run]. by destruct (run _ _ _). Qed.

Lemma run_hand_free (calls : list Call) (c : Controller) :
  noHandSeen Math_sqrt calls c = true →
  smoothed (run Math_sqrt calls c).1 = smoothed c
  ∧ smoothingFactor (run Math_sqrt calls c).1 = smoothingFactor c
  ∧ (prevHandPosition c = None → prevHandPosition (run Math_sqrt calls c).1 = None).
Proof.
  revert c. induction calls as [|call calls IH]; intros c; [done |].
  cbn [noHandSeen]. rewrite andb_true_iff, negb_true_iff.
  intros [Hfree Hrest]. rewrite run_cons.
  destruct (exec_hand_free call c Hfree) as (Hs & Hk & Hp).
  destruct (IH _ Hrest) as (Hs' & Hk' & Hp').
  split; [congruence |]. split; [congruence | auto].
Qed.

Lemma noHandYet_baseline (c : Controller) :
  noHandYet Math_sqrt c → prevHandPosition c = None.
Proof.
  intros [(hasContext & options & ->) | (c0 & frame0 & Hruns & Hhand & ->)].
  - reflexivity.
  - by rewrite (processFrame_no_hand_result c0 frame0 Hhand Hruns).
Qed.

(** C4, as the code has it.  Start from a controller that was just built,
    or that has just processed a frame on which the detector reported no
    hand, and let any calls follow in which the detector reports no hand
    (further such frames, skipped frames, [start], [stop], subscriptions).
    The next frame on which the detector reports a hand emits one [update]
    event, with [present: true] and [movement] exactly [{x: 0, y: 0}].  A
    hand seen before a [stop] is outside the statement: [start] keeps the
    baseline. *)
Theorem first_hand_frame_movement_zero (c : Controller) (calls : list Call)
    (frame : Frame) (hand world : list Landmark) :
  noHandYet Math_sqrt c →
  noHandSeen Math_sqrt calls c = true →
  let c' := (run Math_sqrt calls c).1 in
  detectorRuns c' frame = true →
  oneHand (results frame) hand world →
  ∃ data : UpdateData,
    outputs (processFrame Math_sqrt frame c')
    = [Emitted "update" (UpdatePayload data);
       AnimationFrameRequested LoopCallback]
    ∧ u_present data = true
    ∧ u_movement data = Some {| vx := 0; vy := 0 |}.
Proof.
  intros Hyet Hfree c' Hruns Hone.
  assert (Hprev : prevHandPosition c' = None)
    by (apply run_hand_free; [exact Hfree | by apply noHandYet_baseline]).
  destruct (processFrame_hand c' frame hand world Hruns Hone)
    as (fingerStates & raw & wrist & indexTip & _ & _ & _ & _ & Heq).
  cbn zeta in Heq. rewrite Heq, Hprev. cbn [outputs].
  eexists. split; [reflexivity |]. split; reflexivity.
Qed.

(** C10.  The smoothed signal starts at openness 0 and position (0, 0);
    [stop] and [start] leave it as it is, and so does every call that sees no
    hand.  Hence the first frame with a hand after construction, whatever
    [start], [stop] and hand-less frames came before, emits
    [smoothingFactor * raw] as openness, 0.28 times the raw openness with the
    default options, and likewise a position pulled toward (0, 0). *)
Theorem first_hand_frame_biased (hasContext : bool) (options : Options) :
  let c0 := constructor hasContext options in
  smoothed c0 = {| s_openness := 0; s_position := {| vx := 0; vy := 0 |} |}
  ∧ smoothingFactor (constructor hasContext noOptions) = 0.28
  ∧ (∀ c : Controller,
       smoothed (final (stop c)) = smoothed c
       ∧ smoothed (final (start c)) = smoothed c)
  ∧ (∀ (calls : list Call) (frame : Frame) (hand world : list Landmark),
       noHandSeen Math_sqrt calls c0 = true →
       let c' := (run Math_sqrt calls c0).1 in
       detectorRuns c' frame = true →
       oneHand (results frame) hand world →
       ∃ (data : UpdateData) (raw openness : Q) (wrist : Landmark) (position : Vec2),
         outputs (processFrame Math_sqrt frame c')
         = [Emitted "update" (UpdatePayload data);
            AnimationFrameRequested LoopCallback]
         ∧ computeOpenness Math_sqrt world = Some raw
         ∧ hand !! 0%nat = Some wrist
         ∧ u_openness data = Some openness
         ∧ openness == smoothingFactor c0 * raw
         ∧ u_position data = Some position
         ∧ vx position == smoothingFactor c0 * (1 - lx wrist)
         ∧ vy position == smoothingFactor c0 * ly wrist).
Proof.
  intros c0. split; [reflexivity |]. split; [reflexivity |].
  split.
  - intros c. split; [reflexivity |].
    unfold start. rewrite bind_this. by destruct (ready c), (running c).
  - intros calls frame hand world Hfree c' Hruns Hone.
    destruct (run_hand_free calls c0 Hfree) as (Hs & Hk & _).
    fold c' in Hs, Hk.
    destruct (processFrame_hand c' frame hand world Hruns Hone)
      as (fingerStates & raw & wrist & indexTip & _ & Hraw & Hwrist & _ & Heq).
    change (smoothed c0)
      with {| s_openness := 0; s_position := {| vx := 0; vy := 0 |} |} in Hs.
    cbn zeta in Heq. rewrite Heq, Hs, Hk. cbn [outputs].
    generalize (smoothingFactor c0). intros k.
    eexists _, raw, _, wrist, _.
    split; [reflexivity |]. split; [exact Hraw |]. split; [exact Hwrist |].
    split; [reflexivity |].
    cbn [s_openness s_position vx vy]. unfold lerp.
    split; [ring |]. split; [reflexivity |].
    cbn [vx vy]. split; ring.
Qed.

End Frames.

(** *** The theorems on a sample run *)

Section SampleRun.

Import GestureController.
Local Open Scope Q_scope.

Lemma oneHand_handResult :
  oneHand handResult nearlyStraightIndex nearlyStraightIndex.
Proof. repeat split; by eexists. Qed.

Lemma processFrame_no_hand_witness :
  smoothed (final (processFrame sqrtQ (frameAt 1 noHandResult) started))
  = smoothed started
  ∧ completion (processFrame sqrtQ (frameAt 1 noHandResult) started) = Normal ()
  ∧ prevHandPosition (final (processFrame sqrtQ (frameAt 1 noHandResult) started))
    = None
  ∧ outputs (processFrame sqrtQ (frameAt 1 noHandResult) started)
    = [Emitted "update"
         (UpdatePayload
            {| u_gesture := none; u_present := false;
               u_openness := None; u_fingerStates := None;
               u_position := None; u_movement := None;
               u_pointer := None |});
       AnimationFrameRequested LoopCallback].
Proof.
  destruct (processFrame_no_hand sqrtQ started (frameAt 1 noHandResult) eq_refl)
    as [Hsmoothed Hdetects].
  split; [exact Hsmoothed | exact (Hdetects eq_refl)].
Defined.

Lemma first_hand_frame_movement_zero_witness :
  ∃ data : UpdateData,
    outputs (processFrame sqrtQ (frameAt 3 handResult)
               (run sqrtQ quietCalls startedNoHand).1)
    = [Emitted "update" (UpdatePayload data);
       AnimationFrameRequested LoopCallback]
    ∧ u_present data = true
    ∧ u_movement data = Some {| vx := 0; vy := 0 |}.
Proof.
  apply (first_hand_frame_movement_zero sqrtQ startedNoHand quietCalls
           (frameAt 3 handResult) nearlyStraightIndex nearlyStraightIndex).
  - right. exists started, (frameAt 1 noHandResult).
    split; [reflexivity |]. split; reflexivity.
  - reflexivity.
  - reflexivity.
  - exact oneHand_handResult.
Defined.

(** C4, as stated, fails for the first hand seen after a restart.  [start]
    does not clear the baseline: a hand seen before [stop] still serves as
    previous position for the first hand seen after the next [start], whose
    [movement] is then the distance the smoothed position has moved. *)
Lemma restart_keeps_baseline :
  ∃ data : UpdateData,
    outputs (processFrame sqrtQ (frameAt 2 handResult)
               (run sqrtQ [RunProcessFrame (frameAt 1 handResult); DoStop; DoStart]
                  started).1)
    = [Emitted "update" (UpdatePayload data);
       AnimationFrameRequested LoopCallback]
    ∧ u_movement data ≠ Some {| vx := 0; vy := 0 |}.
Proof.
  eexists. split; [vm_compute; reflexivity |].
  cbn [u_movement]. by intros [=].
Qed.

Lemma first_hand_frame_biased_witness :
  ∃ (data : UpdateData) (raw openness : Q) (wrist : Landmark) (position : Vec2),
    outputs (processFrame sqrtQ (frameAt 2 handResult)
               (run sqrtQ firstCalls (constructor true noOptions)).1)
    = [Emitted "update" (UpdatePayload data);
       AnimationFrameRequested LoopCallback]
    ∧ computeOpenness sqrtQ nearlyStraightIndex = Some raw
    ∧ nearlyStraightIndex !! 0%nat = Some wrist
    ∧ u_openness data = Some openness
    ∧ openness == smoothingFactor (constructor true noOptions) * raw
    ∧ u_position data = Some position
    ∧ vx position == smoothingFactor (constructor true noOptions) * (1 - lx wrist)
    ∧ vy position == smoothingFactor (constructor true noOptions) * ly wrist.
Proof.
  destruct (first_hand_frame_biased sqrtQ true noOptions) as (_ & _ & _ & Hfirst).
  apply (Hfirst firstCalls (frameAt 2 handResult)
           nearlyStraightIndex nearlyStraightIndex).
  - reflexivity.
  - reflexivity.
  - exact oneHand_handResult.
Defined.

End SampleRun.

(** ** Subscriptions and delivery *)

Section Subscriptions.

Import GestureController.

Variable Math_sqrt : Q → Q.

(** *** The set of handlers *)

Lemma elem_of_Set_values (s : HandlerSet) (h : Handler) :
  h ∈ Set_values s ↔ Some h ∈ s.
Proof.
  unfold Set_values. rewrite list_elem_of_omap. split.
  - intros (e & He & Heq). unfold id in Heq. by subst e.
  - intros He. by exists (Some h).
Qed.

Lemma Set_values_add (h : Handler) (s : HandlerSet) :
  Set_values (Set_add h s)
  = if decide (h ∈ Set_values s) then Set_values s else Set_values s ++ [h].
Proof.
  unfold Set_add, Set_has.
  case_bool_decide as Hin; rewrite <- elem_of_Set_values in Hin;
    destruct (decide (h ∈ Set_values s)); try done.
  unfold Set_values. by rewrite omap_app.
Qed.

Lemma Set_values_delete (h : Handler) (s : HandlerSet) :
  Set_values (Set_delete h s) = filter (λ h', h' ≠ h) (Set_values s).
Proof.
  unfold Set_values, Set_delete.
  induction s as [|[h'|] s IH]; [done | | done].
  cbn [fmap list_fmap omap list_omap].
  destruct (decide (Some h' = Some h)) as [[= ->]|Hne]; cbn [id].
  - rewrite filter_cons_False by (intros Hh; by apply Hh). exact IH.
  - rewrite filter_cons_True by congruence. by f_equal.
Qed.

Lemma Set_delete_length (h : Handler) (s : HandlerSet) :
  length (Set_delete h s) = length s.
Proof. apply length_fmap. Qed.



(** *** What the methods do to the registry *)





Lemma on_listeners (event : string) (handler : Handler) (c : Controller) :
  listeners (final (on event handler c))
  = <[event := Set_add handler (default [] (listeners c !! event))]> (listeners c).
Proof.
  unfold on. rewrite bind_this.
  case_bool_decide as Hsome.
  - destruct Hsome as [s Hs]. rewrite Hs, bind_mret, bind_this.
    change (alter (Set_add handler) event (listeners c)
            = <[event := Set_add handler s]> (listeners c)).
    apply map_eq. intros e.
    destruct (decide (e = event)) as [->|Hne].
    + by rewrite lookup_alter_eq, lookup_insert_eq, Hs.
    + by rewrite lookup_alter_ne, lookup_insert_ne.
  - apply eq_None_not_Some in Hsome. rewrite Hsome, bind_assign, bind_this.
    change (alter (Set_add handler) event (<[event := []]> (listeners c))
            = <[event := Set_add handler []]> (listeners c)).
    apply map_eq. intros e.
    destruct (decide (e = event)) as [->|Hne].
    + by rewrite lookup_alter_eq, !lookup_insert_eq.
    + by rewrite lookup_alter_ne, !lookup_insert_ne.
Qed.

Lemma off_listeners (event : string) (handler : Handler) (c : Controller) :
  listeners (final (off event handler c))
  = alter (Set_delete handler) event (listeners c).
Proof. reflexivity. Qed.

Lemma registered_on (event e : string) (handler : Handler) (c : Controller) :
  registered (final (on e handler c)) event
  = if decide (e = event ∧ handler ∉ registered c event)
    then registered c event ++ [handler] else registered c event.
Proof.
  unfold registered. rewrite on_listeners.
  destruct (decide (e = event)) as [->|Hne].
  - rewrite lookup_insert_eq. cbn. rewrite Set_values_add.
    destruct (decide (handler ∈ _)), (decide (_ ∧ _)); tauto || done.
  - rewrite lookup_insert_ne by done.
    destruct (decide (_ ∧ _)); tauto || done.
Qed.

Lemma registered_off (event e : string) (handler : Handler) (c : Controller) :
  registered (final (off e handler c)) event
  = if decide (e = event)
    then filter (λ h, h ≠ handler) (registered c event) else registered c event.
Proof.
  unfold registered. rewrite off_listeners.
  destruct (decide (e = event)) as [->|Hne].
  - rewrite lookup_alter_eq. destruct (listeners c !! event); cbn; [| done].
    apply Set_values_delete.
  - by rewrite lookup_alter_ne.
Qed.




(** *** Delivery *)




End Subscriptions.



(* ===================================================================== *)
(** * Further properties of the code                                      *)
(* ===================================================================== *)

(** ** Landmark geometry *)

Section Geometry.

Import GestureController.
Local Open Scope Q_scope.

Lemma Qltb_proper (a a' b : Q) : a == a' → Qltb a b = Qltb a' b.
Proof.
  intros Heq. unfold Qltb. f_equal.
  destruct (Qle_bool b a) eqn:H1, (Qle_bool b a') eqn:H2; try reflexivity.
  - apply Qle_bool_iff in H1. rewrite Heq in H1. apply Qle_bool_iff in H1. congruence.
  - apply Qle_bool_iff in H2. rewrite <- Heq in H2. apply Qle_bool_iff in H2. congruence.
Qed.

(** [lerp] with a factor from 0 to 1/2 stays between its two ends, and is
    [current] at factor 0.  The two ends are at most [2 ** 1000] in
    magnitude, so that their difference does not overflow.  Larger factors
    are left out: at factor 1 the result in binary64 need not be [target],
    nor lie between the ends ([lerp_factor_one_misses_target]). *)
Theorem lerp_between (current target smoothing : Q) :
  Qabs current <= pow2 1000 → Qabs target <= pow2 1000 →
  0 <= smoothing → smoothing <= 1 # 2 →
  Qmin current target <= lerp current target smoothing
  ∧ lerp current target smoothing <= Qmax current target
  ∧ lerp current target 0 == current.
Proof.
  intros _ _ H0 H1.
  split; [| split; [| unfold lerp; ring]].
  - destruct (Q.min_spec current target) as [[Hlt ->]|[Hle ->]].
    + apply (lerp_below smoothing H0 H1). lra.
    + by apply (lerp_above smoothing H0 H1).
  - destruct (Q.max_spec current target) as [[Hlt ->]|[Hle ->]].
    + apply (lerp_below smoothing H0 H1). lra.
    + by apply (lerp_above smoothing H0 H1).
Qed.

Lemma lerp_between_witness :
  Qmin 2 10 <= lerp 2 10 0.28 ∧ lerp 2 10 0.28 <= Qmax 2 10
  ∧ lerp 2 10 0 == 2.
Proof. apply (lerp_between 2 10 0.28); vm_compute; discriminate. Defined.

Example lerp_factor_one_misses_target :
  SFltb (Binary64.lerp (Binary64.literal 7 10) (Binary64.literal 1 10)
           (Binary64.ofZ 1))
        (Binary64.literal 1 10)
  = true.
Proof. by vm_compute. Qed.

Lemma fingerDot_is_Some (worldLandmarks : list Landmark) (i : nat) :
  (21 ≤ length worldLandmarks)%nat → (i < 5)%nat →
  is_Some (fingerDot worldLandmarks i).
Proof.
  intros Hlen Hi. unfold fingerDot.
  assert (Hat : ∀ j, (j < 21)%nat → is_Some (worldLandmarks !! j))
    by (intros j Hj; apply lookup_lt_is_Some; lia).
  destruct i as [|[|[|[|[|i]]]]]; try lia; simpl;
    repeat match goal with
    | |- context [worldLandmarks !! ?j] =>
        let p := fresh "p" in let Hp := fresh "Hp" in
        destruct (Hat j ltac:(lia)) as [p Hp]; rewrite Hp; simpl
    end; eauto.
Qed.

(** [computeFingerStates] throws exactly when the array has fewer than 21
    landmarks (the little finger's tip is landmark 20), and otherwise returns
    five flags; landmarks past the 21st are not read. *)
Theorem computeFingerStates_throws_iff_short (worldLandmarks : list Landmark) :
  (computeFingerStates worldLandmarks = None ↔ (length worldLandmarks < 21)%nat)
  ∧ (∀ states, computeFingerStates worldLandmarks = Some states →
       length states = 5%nat
       ∧ computeFingerStates (take 21 worldLandmarks) = Some states).
Proof.
  assert (Hlong : (21 ≤ length worldLandmarks)%nat →
                  ∃ states, computeFingerStates worldLandmarks = Some states
                            ∧ length states = 5%nat
                            ∧ computeFingerStates (take 21 worldLandmarks) = Some states).
  { intros Hlen.
    destruct (fingerDot_is_Some worldLandmarks 0 Hlen ltac:(lia)) as [d0 H0].
    destruct (fingerDot_is_Some worldLandmarks 1 Hlen ltac:(lia)) as [d1 H1].
    destruct (fingerDot_is_Some worldLandmarks 2 Hlen ltac:(lia)) as [d2 H2].
    destruct (fingerDot_is_Some worldLandmarks 3 Hlen ltac:(lia)) as [d3 H3].
    destruct (fingerDot_is_Some worldLandmarks 4 Hlen ltac:(lia)) as [d4 H4].
    eexists. split; [by apply computeFingerStates_dots |]. split; [reflexivity |].
    apply computeFingerStates_dots; unfold fingerDot in *; cbn in *;
      rewrite ?lookup_take_lt by lia; assumption. }
  assert (Hshort : (length worldLandmarks < 21)%nat →
                   computeFingerStates worldLandmarks = None).
  { intros Hlen.
    assert (H20 : worldLandmarks !! 20%nat = None)
      by (apply lookup_ge_None; lia).
    unfold computeFingerStates. cbn [seq mapM].
    assert (H4 : fingerState worldLandmarks 4 = None)
      by (unfold fingerState, fingerDot; cbn; by rewrite H20).
    rewrite H4.
    destruct (fingerState worldLandmarks 0); [| done].
    destruct (fingerState worldLandmarks 1); [| done].
    destruct (fingerState worldLandmarks 2); [| done].
    destruct (fingerState worldLandmarks 3); done. }
  split.
  - split; [| exact Hshort].
    intros Hnone. destruct (decide (length worldLandmarks < 21)%nat); [done |].
    destruct Hlong as (states & Hs & _); [lia | congruence].
  - intros states Hs.
    destruct (decide (length worldLandmarks < 21)%nat) as [Hlt|Hge].
    + rewrite Hshort in Hs by done. discriminate.
    + destruct Hlong as (states' & Hs' & Hlen & Htake); [lia |].
      rewrite Hs in Hs'. by injection Hs' as <-.
Qed.

Lemma computeFingerStates_throws_iff_short_witness :
  computeFingerStates (take 20 nearlyStraightIndex) = None
  ∧ length [false; false; false; false; false] = 5%nat
  ∧ computeFingerStates (take 21 (nearlyStraightIndex ++ [origin]))
    = Some [false; false; false; false; false].
Proof.
  split.
  - apply (computeFingerStates_throws_iff_short (take 20 nearlyStraightIndex)).
    vm_compute. lia.
  - apply (computeFingerStates_throws_iff_short (nearlyStraightIndex ++ [origin])).
    reflexivity.
Defined.

Lemma dot3_translate (dx dy dz : Q) (tip pip mcp : Landmark) :
  dot3 (subtract3 (translateLandmark dx dy dz tip) (translateLandmark dx dy dz pip))
       (subtract3 (translateLandmark dx dy dz mcp) (translateLandmark dx dy dz pip))
  == dot3 (subtract3 tip pip) (subtract3 mcp pip).
Proof.
  unfold dot3, subtract3, translateLandmark.
  cbn [lx ly lz orZero from_option id]. ring.
Qed.

Lemma fingerState_translate (dx dy dz : Q) (worldLandmarks : list Landmark) (i : nat) :
  fingerState (translateLandmarks dx dy dz worldLandmarks) i
  = fingerState worldLandmarks i.
Proof.
  unfold fingerState, fingerDot, translateLandmarks.
  destruct (FINGER_TIPS !! i) as [tipIndex|]; [cbn | done].
  destruct (FINGER_PIPS !! i) as [pipIndex|]; [cbn | done].
  destruct (FINGER_MCP !! i) as [mcpIndex|]; [cbn | done].
  rewrite !list_lookup_fmap.
  destruct (worldLandmarks !! tipIndex) as [tip|]; [cbn | done].
  destruct (worldLandmarks !! pipIndex) as [pip|]; [cbn | done].
  destruct (worldLandmarks !! mcpIndex) as [mcp|]; [cbn | done].
  f_equal. apply Qltb_proper, dot3_translate.
Qed.

(** Where the hand is does not matter to the finger flags: shifting every
    landmark by the same vector gives the same result, exception included. *)
Theorem computeFingerStates_translation_invariant (dx dy dz : Q)
    (worldLandmarks : list Landmark) :
  computeFingerStates (translateLandmarks dx dy dz worldLandmarks)
  = computeFingerStates worldLandmarks.
Proof.
  unfold computeFingerStates. apply mapM_ext. intros i.
  apply fingerState_translate.
Qed.

End Geometry.

(** ** What a frame can do *)

Section FrameOutcomes.

Import GestureController.
Local Open Scope Q_scope.

Variable Math_sqrt : Q → Q.

Lemma bind_undefined {A B} (k : A → M B) (c : Controller) :
  (defined None ≫= k) c = {| completion := Thrown; final := c; outputs := [] |}.
Proof. by apply bind_thrown. Qed.

Lemma determineGesture_not_none (fingerStates : list bool) :
  determineGesture fingerStates ≠ none.
Proof.
  unfold determineGesture.
  repeat match goal with |- context [if ?b then _ else _] => destruct b end;
    discriminate.
Qed.

Lemma computeFingerStates_length (world : list Landmark) (fingerStates : list bool) :
  computeFingerStates world = Some fingerStates → length fingerStates = 5%nat.
Proof. intros H. by apply length_mapM in H. Qed.

#[local] Instance sameButSmoothing_refl : Reflexive sameButSmoothing.
Proof. intros c. by repeat split. Qed.

(** [_analyzeLandmarks] emits nothing itself, touches only the smoothed
    signal and the baseline, and what it returns is a well-shaped object. *)
Lemma analyzeLandmarks_outcome (hand world : list Landmark) (c : Controller) :
  outputs (_analyzeLandmarks Math_sqrt hand world c) = []
  ∧ sameButSmoothing c (final (_analyzeLandmarks Math_sqrt hand world c))
  ∧ ∀ data, completion (_analyzeLandmarks Math_sqrt hand world c) = Normal data →
            u_present data = true ∧ wellShaped data.
Proof.
  unfold _analyzeLandmarks.
  destruct (computeFingerStates world) as [fingerStates|] eqn:Hfs;
    [rewrite bind_defined | by rewrite bind_undefined].
  destruct (computeOpenness Math_sqrt world) as [raw|];
    [rewrite bind_defined | by rewrite bind_undefined].
  rewrite bind_this, bind_assign.
  destruct (hand !! 0%nat) as [wrist|];
    [rewrite bind_defined | by rewrite bind_undefined].
  rewrite bind_assign, bind_this, bind_assign.
  destruct (hand !! 8%nat) as [indexTip|];
    [rewrite bind_defined | by rewrite bind_undefined].
  rewrite bind_this.
  split; [reflexivity |]. split; [by repeat split |].
  intros data [= <-]. split; [reflexivity |]. unfold wellShaped. cbn.
  split; [apply determineGesture_not_none |].
  split; [| by eauto].
  exists fingerStates. split; [done |]. split; [| done].
  by apply computeFingerStates_length in Hfs.
Qed.

Lemma drawDetections_outcome (r : DetectResult) (c : Controller) :
  outputs (_drawDetections r c) = [] ∧ final (_drawDetections r c) = c.
Proof.
  unfold _drawDetections. rewrite bind_this.
  destruct (negb (ctx c)); [done |].
  destruct (negb (hasHand r)); [done |].
  by destruct (forallb _ _).
Qed.

Lemma emit_then_request (event : string) (payload : Payload)
    (callback : Callback) (c : Controller) :
  (emit event payload ≫= λ _, requestAnimationFrame callback) c
  = {| completion := Normal (); final := c;
       outputs := [Emitted event payload; AnimationFrameRequested callback] |}.
Proof. reflexivity. Qed.

(** The events a frame can emit: none, one [error] (no model), or one
    [update] with a well-shaped object. *)
Lemma processFrame_outcome (frame : Frame) (c : Controller) :
  frameStep c (final (processFrame Math_sqrt frame c))
  ∧ (emitted (outputs (processFrame Math_sqrt frame c)) = []
     ∨ (model c = false
        ∧ ∃ message, emitted (outputs (processFrame Math_sqrt frame c))
                     = [("error", ErrorPayload message)])
     ∨ (detectorRuns c frame = true
        ∧ ∃ data, emitted (outputs (processFrame Math_sqrt frame c))
                  = [("update", UpdatePayload data)]
                  ∧ wellShaped data
                  ∧ u_present data = hasHand (results frame))).
Proof.
  unfold processFrame. rewrite bind_this.
  destruct (model c) eqn:Hmodel; cbn [negb];
    [| split; [by repeat split | right; left; by eauto]].
  destruct (Qeq_bool _ _) eqn:Htime; [split; [by repeat split | by left] |].
  rewrite bind_assign.
  destruct (_ || _)%bool eqn:Hsize; [split; [by repeat split | by left] |].
  assert (Hruns : detectorRuns c frame = true)
    by (unfold detectorRuns; by rewrite Hmodel, Htime, Hsize).
  set (c1 := set_lastVideoTime (currentTime frame) c).
  destruct (drawDetections_outcome (results frame) c1) as [Hout Hfin].
  destruct (_drawDetections (results frame) c1) as [[[]|] c2 out] eqn:Hdraw;
    cbn in Hout, Hfin; subst c2 out.
  2: { rewrite (bind_thrown _ _ _ _ _ Hdraw).
       split; [by repeat split | by left]. }
  rewrite (bind_normal _ _ _ _ _ _ Hdraw).
  destruct (hasHand (results frame)) eqn:Hhand.
  - set (hand := default [] (landmarks (results frame) ≫= head)).
    set (world := default [] (head (worldLandmarks (results frame)))).
    destruct (analyzeLandmarks_outcome hand world c1) as (Hout & Hsame & Hshape).
    destruct (_analyzeLandmarks Math_sqrt hand world c1) as [[data|] c2 out] eqn:Han;
      cbn in Hout, Hsame, Hshape; subst out.
    + rewrite bind_assoc, (bind_normal _ _ _ _ _ _ Han), emit_then_request.
      destruct Hsame as (? & ? & ? & ? & ? & ? & ? & ?).
      subst c1. cbn in *.
      split; [repeat split; intros; congruence |].
      right; right. split; [done |]. exists data.
      destruct (Hshape data eq_refl) as [Hpresent Hwell]. by repeat split.
    + rewrite bind_assoc, (bind_thrown _ _ _ _ _ Han).
      destruct Hsame as (? & ? & ? & ? & ? & ? & ? & ?).
      subst c1. cbn in *.
      split; [repeat split; intros; congruence | by left].
  - split; [by repeat split |].
    right; right. split; [done |]. exists noHandData. by repeat split.
Qed.

Lemma emitted_app (out out' : list Output) :
  emitted (out ++ out') = emitted out ++ emitted out'.
Proof. apply omap_app. Qed.

(** What each call emits, and what it leaves of the life-cycle flags. *)
Lemma exec_outcome (call : Call) (c : Controller) :
  (∀ event payload,
     (event, payload) ∈ emitted (outputs (exec Math_sqrt call c)) →
     event = channelOf payload
     ∧ ∀ data, payload = UpdatePayload data → wellShaped data)
  ∧ ((running c = true → ready c = true) → (ready c = true → model c = true) →
     (running (final (exec Math_sqrt call c)) = true →
      ready (final (exec Math_sqrt call c)) = true)
     ∧ (ready (final (exec Math_sqrt call c)) = true →
        model (final (exec Math_sqrt call c)) = true)).
Proof.
  destruct call as [outcome| | |event handler|event handler| |frame]; cbn [exec].
  - destruct outcome; cbn; (split; [| first [tauto | intuition congruence]]);
      intros event payload Hin;
      repeat (apply elem_of_cons in Hin as [[= -> ->] | Hin]; [by split |]);
      by apply elem_of_nil in Hin.
  - unfold start. rewrite bind_this.
    destruct (ready c) eqn:Hready, (running c) eqn:Hrunning; cbn [negb orb];
      rewrite ?bind_assign; unfold _loop; rewrite ?bind_this; cbn;
      rewrite ?Hready, ?Hrunning;
      (split; [by intros ? ? ?%elem_of_nil | first [tauto | intuition congruence]]).
  - cbn. split; [by intros ? ? ?%elem_of_nil | first [tauto | intuition congruence]].
  - unfold on. rewrite bind_this.
    case_bool_decide; rewrite ?bind_mret, ?bind_assign, bind_this; cbn;
      (split; [by intros ? ? ?%elem_of_nil | first [tauto | intuition congruence]]).
  - unfold off. rewrite bind_this. cbn.
    split; [by intros ? ? ?%elem_of_nil | first [tauto | intuition congruence]].
  - unfold _loop. rewrite bind_this.
    destruct (running c) eqn:Hrunning; cbn; rewrite ?Hrunning;
      (split; [by intros ? ? ?%elem_of_nil | first [tauto | intuition congruence]]).
  - destruct (processFrame_outcome frame c)
      as [(_ & _ & Hready & _ & _ & Hmodel & Hrunning) Hemit].
    split.
    + intros event payload Hin.
      destruct Hemit as [Hnone | [(_ & message & Herr) | (_ & data & Hupd & Hwell & _)]].
      * rewrite Hnone in Hin. by apply elem_of_nil in Hin.
      * rewrite Herr in Hin. apply list_elem_of_singleton in Hin as [= -> ->].
        by split.
      * rewrite Hupd in Hin. apply list_elem_of_singleton in Hin as [= -> ->].
        split; [done |]. by intros ? [= <-].
    + intros Hrr Hrm. rewrite Hready, Hmodel. split; [| exact Hrm].
      intros Hrun. apply Hrr, Hrunning, Hrun.
Qed.

Lemma run_cons_outputs (call : Call) (calls : list Call) (c : Controller) :
  (run Math_sqrt (call :: calls) c).2
  = outputs (exec Math_sqrt call c)
    ++ (run Math_sqrt calls (final (exec Math_sqrt call c))).2.
Proof. cbn [run]. by destruct (run _ _ _). Qed.

(** Whatever is done to a controller, each event name carries its own kind
    of payload, and every [update] object has one of the two shapes the
    application destructures: all fields with a hand, none without.  A
    single frame emits at most one event. *)
Theorem run_events_shaped (calls : list Call) (c : Controller) :
  (∀ event payload,
     (event, payload) ∈ emitted (run Math_sqrt calls c).2 →
     event = channelOf payload
     ∧ ∀ data, payload = UpdatePayload data → wellShaped data)
  ∧ ∀ frame, length (emitted (outputs (processFrame Math_sqrt frame c))) ≤ 1.
Proof.
  split.
  - revert c. induction calls as [|call calls IH]; intros c event payload Hin.
    + by apply elem_of_nil in Hin.
    + rewrite run_cons_outputs, emitted_app, elem_of_app in Hin.
      destruct Hin as [Hin|Hin]; [| by eapply IH].
      by apply (exec_outcome call c).
  - intros frame.
    destruct (processFrame_outcome frame c)
      as [_ [-> | [(_ & message & ->) | (_ & data & -> & _)]]]; cbn; lia.
Qed.

Lemma run_lifecycle (calls : list Call) (c : Controller) :
  (running c = true → ready c = true) → (ready c = true → model c = true) →
  (running (run Math_sqrt calls c).1 = true → ready (run Math_sqrt calls c).1 = true)
  ∧ (ready (run Math_sqrt calls c).1 = true → model (run Math_sqrt calls c).1 = true).
Proof.
  revert c. induction calls as [|call calls IH]; intros c Hrr Hrm; [done |].
  rewrite run_cons. destruct (exec_outcome call c) as [_ Hlife].
  destruct (Hlife Hrr Hrm). by apply IH.
Qed.

(** From its construction on, a controller that is running is ready, and
    one that is ready has its model; so a frame processed while the loop is
    running never reports the missing model: whatever it emits is an
    [update]. *)
Theorem running_implies_model (hasContext : bool) (options : Options)
    (calls : list Call) :
  let c := (run Math_sqrt calls (constructor hasContext options)).1 in
  (running c = true → ready c = true)
  ∧ (ready c = true → model c = true)
  ∧ (running c = true →
     ∀ frame event payload,
       (event, payload) ∈ emitted (outputs (processFrame Math_sqrt frame c)) →
       event = "update").
Proof.
  intros c.
  destruct (run_lifecycle calls (constructor hasContext options)) as [Hrr Hrm];
    [done | done |].
  fold c in Hrr, Hrm. split; [exact Hrr |]. split; [exact Hrm |].
  intros Hrun frame event payload Hin.
  destruct (processFrame_outcome frame c)
    as [_ [Hnone | [(Hmodel & _) | (_ & data & Hupd & _)]]].
  - rewrite Hnone in Hin. by apply elem_of_nil in Hin.
  - rewrite Hrm in Hmodel by auto. discriminate.
  - rewrite Hupd in Hin. by apply list_elem_of_singleton in Hin as [= -> _].
Qed.

Lemma start_eq (c : Controller) :
  start c
  = if negb (ready c) || running c
    then {| completion := Normal (); final := c; outputs := [] |}
    else {| completion := Normal ();
            final := set_lastVideoTime (-1) (set_running true c);
            outputs := [AnimationFrameRequested ProcessFrameCallback] |}.
Proof.
  unfold start. rewrite bind_this.
  destruct (negb (ready c) || running c); [reflexivity |].
  rewrite !bind_assign. unfold _loop. by rewrite bind_this.
Qed.

(** [start] takes effect once: a second [start] in a row changes nothing and
    schedules nothing.  An [initialize] that fails in loading throws after
    emitting [error] and leaves the controller as it was, so that a
    controller that was not ready before does not start.  An [initialize]
    that fails because a subscriber of [status] throws has set [ready]
    already: it throws after emitting [status] and [error], and [start]
    then starts the loop. *)
Theorem start_once_and_only_when_ready :
  (∀ c : Controller,
     start (final (start c))
     = {| completion := Normal (); final := final (start c); outputs := [] |})
  ∧ (∀ (c : Controller) (message : string),
       let r := initialize (LoadFailed message) c in
       completion r = Thrown
       ∧ emitted (outputs r) = [("error", ErrorPayload message)]
       ∧ final r = c
       ∧ (ready c = false →
          start (final r)
          = {| completion := Normal (); final := final r; outputs := [] |}))
  ∧ (∀ (c : Controller) (message : string),
       let r := initialize (StatusHandlerThrew message) c in
       completion r = Thrown
       ∧ emitted (outputs r)
         = [("status", StatusPayload "手势识别已就绪");
            ("error", ErrorPayload message)]
       ∧ ready (final r) = true
       ∧ (running c = false →
          running (final (start (final r))) = true
          ∧ outputs (start (final r))
            = [AnimationFrameRequested ProcessFrameCallback])).
Proof.
  split; [| split].
  - intros c. rewrite (start_eq c).
    destruct (ready c) eqn:Hready, (running c) eqn:Hrunning; cbn [negb orb final];
      rewrite start_eq; cbn; by rewrite ?Hready, ?Hrunning.
  - intros c message r.
    assert (Hfinal : final r = c) by done.
    split; [done |]. split; [done |]. split; [exact Hfinal |].
    intros Hready. rewrite Hfinal, start_eq. by rewrite Hready.
  - intros c message r.
    assert (Hfinal : final r = set_ready true (set_model true c)) by done.
    split; [done |]. split; [done |]. split; [done |].
    intros Hrunning. rewrite Hfinal, start_eq. cbn. by rewrite Hrunning.
Qed.

(** *** Frames one after the other *)

Lemma processFrame_lastVideoTime (frame : Frame) (c : Controller) :
  model c = true →
  model (final (processFrame Math_sqrt frame c)) = true
  ∧ lastVideoTime (final (processFrame Math_sqrt frame c)) == currentTime frame.
Proof.
  intros Hmodel. unfold processFrame. rewrite bind_this, Hmodel. cbn [negb].
  destruct (Qeq_bool _ _) eqn:Htime.
  { split; [done |]. symmetry. by apply Qeq_bool_iff. }
  rewrite bind_assign.
  destruct (_ || _)%bool; [by split |].
  set (c1 := set_lastVideoTime (currentTime frame) c).
  destruct (drawDetections_outcome (results frame) c1) as [Hout Hfin].
  destruct (_drawDetections (results frame) c1) as [[[]|] c2 out] eqn:Hdraw;
    cbn in Hout, Hfin; subst c2 out.
  2: { rewrite (bind_thrown _ _ _ _ _ Hdraw). by split. }
  rewrite (bind_normal _ _ _ _ _ _ Hdraw).
  destruct (hasHand (results frame)); [| by split].
  set (hand := default [] (landmarks (results frame) ≫= head)).
  set (world := default [] (head (worldLandmarks (results frame)))).
  destruct (analyzeLandmarks_outcome hand world c1)
    as (Hout & (_ & _ & _ & _ & _ & _ & Hm & Ht) & _).
  destruct (_analyzeLandmarks Math_sqrt hand world c1) as [[data|] c2 out] eqn:Han;
    cbn in Hout, Hm, Ht; subst out.
  - rewrite bind_assoc, (bind_normal _ _ _ _ _ _ Han), emit_then_request. cbn.
    rewrite Hm, Ht. by split.
  - rewrite bind_assoc, (bind_thrown _ _ _ _ _ Han). cbn.
    rewrite Hm, Ht. by split.
Qed.

(** A frame whose video time equals that of the frame processed before is
    skipped: nothing is emitted, nothing changes, the loop goes on.  The
    times are compared as numbers. *)
Theorem processFrame_same_time_skipped (c : Controller) (frame frame' : Frame) :
  model c = true →
  currentTime frame' == currentTime frame →
  processFrame Math_sqrt frame' (final (processFrame Math_sqrt frame c))
  = {| completion := Normal ();
       final := final (processFrame Math_sqrt frame c);
       outputs := [AnimationFrameRequested LoopCallback] |}.
Proof.
  intros Hmodel Htime.
  destruct (processFrame_lastVideoTime frame c Hmodel) as [Hmodel' Hlast].
  unfold processFrame at 1. rewrite bind_this, Hmodel'. cbn [negb].
  assert (Heq : Qeq_bool (currentTime frame')
                  (lastVideoTime (final (processFrame Math_sqrt frame c))) = true)
    by (apply Qeq_bool_iff; by rewrite Htime, Hlast).
  by rewrite Heq.
Qed.

(** On two frames with a hand, one after the other, the movement of the
    second is the difference of the two emitted positions. *)
Theorem movement_is_position_delta (c : Controller) (frame1 frame2 : Frame)
    (hand1 world1 hand2 world2 : list Landmark) :
  detectorRuns c frame1 = true →
  oneHand (results frame1) hand1 world1 →
  let c1 := final (processFrame Math_sqrt frame1 c) in
  detectorRuns c1 frame2 = true →
  oneHand (results frame2) hand2 world2 →
  ∃ (data1 data2 : UpdateData) (position1 position2 : Vec2),
    emitted (outputs (processFrame Math_sqrt frame1 c))
    = [("update", UpdatePayload data1)]
    ∧ emitted (outputs (processFrame Math_sqrt frame2 c1))
      = [("update", UpdatePayload data2)]
    ∧ u_position data1 = Some position1
    ∧ u_position data2 = Some position2
    ∧ u_movement data2
      = Some {| vx := vx position2 - vx position1;
                vy := vy position2 - vy position1 |}.
Proof.
  intros Hruns1 Hone1 c1 Hruns2 Hone2.
  destruct (processFrame_hand Math_sqrt c frame1 hand1 world1 Hruns1 Hone1)
    as (fs1 & raw1 & wrist1 & tip1 & _ & _ & _ & _ & Heq1).
  destruct (processFrame_hand Math_sqrt c1 frame2 hand2 world2 Hruns2 Hone2)
    as (fs2 & raw2 & wrist2 & tip2 & _ & _ & _ & _ & Heq2).
  cbn zeta in Heq1, Heq2. rewrite Heq2. subst c1. rewrite Heq1. cbn.
  eexists _, _, _, _. repeat split; reflexivity.
Qed.

Lemma holdRaw_shift (k raw : Q) (n : nat) (s : Q) :
  holdRaw k raw (S n) s = holdRaw k raw n (lerp s raw k).
Proof. induction n as [|n IH]; [done |]. cbn [holdRaw] in *. by rewrite IH. Qed.

(** Frames of a hand held still, each with a new video time: the stored
    openness after [n] of them is the smoothing step applied [n] times to
    the stored value, each time toward the same raw openness, and the
    smoothing factor is the one the controller was built with. *)
Theorem held_hand_openness (world : list Landmark) (raw : Q) (frames : list Frame)
    (c : Controller) :
  computeOpenness Math_sqrt world = Some raw →
  model c = true →
  advancing (lastVideoTime c) frames = true →
  (∀ frame, frame ∈ frames → ∃ hand, oneHand (results frame) hand world) →
  let c' := (run Math_sqrt (RunProcessFrame <$> frames) c).1 in
  s_openness (smoothed c')
  = holdRaw (smoothingFactor c) raw (length frames) (s_openness (smoothed c))
  ∧ smoothingFactor c' = smoothingFactor c.
Proof.
  intros Hraw. revert c.
  induction frames as [|frame frames IH]; intros c Hmodel Hadv Hhands; [done |].
  cbn [advancing] in Hadv. apply andb_true_iff in Hadv as [Hadv Hrest].
  apply andb_true_iff in Hadv as [Htime Hsize].
  assert (Hruns : detectorRuns c frame = true)
    by (unfold detectorRuns; by rewrite Hmodel, Htime, Hsize).
  destruct (Hhands frame) as [hand Hone]; [by left |].
  destruct (processFrame_hand Math_sqrt c frame hand world Hruns Hone)
    as (fs & raw' & wrist & tip & _ & Hraw' & _ & _ & Heq).
  rewrite Hraw in Hraw'. injection Hraw' as <-. cbn zeta in Heq.
  cbn [fmap list_fmap length]. rewrite run_cons. cbn [exec]. rewrite Heq.
  cbn [final]. rewrite holdRaw_shift.
  match goal with |- context [run _ _ ?c1] => destruct (IH c1) as [Ho Hk] end.
  - exact Hmodel.
  - exact Hrest.
  - intros f Hf. apply Hhands. by right.
  - cbn zeta in Ho, Hk. rewrite Ho, Hk. by split.
Qed.

End FrameOutcomes.

Section FrameOutcomesSample.

Import GestureController.
Local Open Scope Q_scope.

Lemma run_events_shaped_witness :
  ("update" = channelOf (UpdatePayload noHandData)
   ∧ ∀ data, UpdatePayload noHandData = UpdatePayload data → wellShaped data)
  ∧ length (emitted (outputs (processFrame sqrtQ (frameAt 1 handResult) started)))
    ≤ 1.
Proof.
  destruct (run_events_shaped sqrtQ firstCalls (constructor true noOptions))
    as [Hshaped _].
  destruct (run_events_shaped sqrtQ [] started) as [_ Hone].
  split; [| apply Hone].
  apply (Hshaped "update" (UpdatePayload noHandData)).
  by apply (list_elem_of_lookup_2 _ 1%nat).
Defined.

Lemma running_implies_model_witness :
  ready started = true ∧ model started = true.
Proof.
  destruct (running_implies_model sqrtQ true noOptions [DoInitialize Loaded; DoStart])
    as (Hready & Hmodel & _).
  split; [apply Hready | apply Hmodel, Hready]; reflexivity.
Defined.

Lemma processFrame_same_time_skipped_witness :
  processFrame sqrtQ (frameAt (2 # 2) handResult)
    (final (processFrame sqrtQ (frameAt 1 noHandResult) started))
  = {| completion := Normal ();
       final := final (processFrame sqrtQ (frameAt 1 noHandResult) started);
       outputs := [AnimationFrameRequested LoopCallback] |}.
Proof.
  apply (processFrame_same_time_skipped sqrtQ started
           (frameAt 1 noHandResult) (frameAt (2 # 2) handResult));
    reflexivity.
Defined.

Lemma movement_is_position_delta_witness :
  ∃ (data1 data2 : UpdateData) (position1 position2 : Vec2),
    emitted (outputs (processFrame sqrtQ (frameAt 1 handResult) started))
    = [("update", UpdatePayload data1)]
    ∧ emitted (outputs (processFrame sqrtQ (frameAt 2 handResult)
                          (final (processFrame sqrtQ (frameAt 1 handResult) started))))
      = [("update", UpdatePayload data2)]
    ∧ u_position data1 = Some position1
    ∧ u_position data2 = Some position2
    ∧ u_movement data2
      = Some {| vx := vx position2 - vx position1;
                vy := vy position2 - vy position1 |}.
Proof.
  apply (movement_is_position_delta sqrtQ started
           (frameAt 1 handResult) (frameAt 2 handResult)
           nearlyStraightIndex nearlyStraightIndex
           nearlyStraightIndex nearlyStraightIndex).
  - reflexivity.
  - exact oneHand_handResult.
  - reflexivity.
  - exact oneHand_handResult.
Defined.

Lemma start_once_and_only_when_ready_witness :
  start (final (initialize (LoadFailed "offline") (constructor true noOptions)))
  = {| completion := Normal ();
       final := final (initialize (LoadFailed "offline") (constructor true noOptions));
       outputs := [] |}
  ∧ running (final (start (final (initialize (StatusHandlerThrew "oops")
                                    (constructor true noOptions))))) = true.
Proof.
  destruct start_once_and_only_when_ready as (_ & Hfailed & Hthrew).
  destruct (Hfailed (constructor true noOptions) "offline") as (_ & _ & _ & Hidle).
  destruct (Hthrew (constructor true noOptions) "oops") as (_ & _ & _ & Hstarts).
  split; [apply Hidle; reflexivity | apply Hstarts; reflexivity].
Defined.

Lemma held_hand_openness_witness :
  s_openness (smoothed (run sqrtQ (RunProcessFrame <$> heldFrames) started).1)
  = holdRaw (smoothingFactor started) (1 # 32) (length heldFrames)
      (s_openness (smoothed started))
  ∧ smoothingFactor (run sqrtQ (RunProcessFrame <$> heldFrames) started).1
    = smoothingFactor started.
Proof.
  apply (held_hand_openness sqrtQ nearlyStraightIndex (1 # 32) heldFrames started);
    [reflexivity | reflexivity | reflexivity |].
  intros frame Hin. exists nearlyStraightIndex.
  repeat (apply elem_of_cons in Hin as [-> | Hin]; [exact oneHand_handResult |]).
  by apply elem_of_nil in Hin.
Defined.

End FrameOutcomesSample.

(** ** Subscribing and unsubscribing *)

Section SubscriptionLaws.

Import GestureController.

Lemma filter_other_id (h : nat) (l : list nat) :
  h ∉ l → filter (λ h', h' ≠ h) l = l.
Proof.
  induction l as [|x l IH]; [done |].
  rewrite not_elem_of_cons. intros [Hne Hnotin].
  rewrite filter_cons_True by done. by rewrite IH.
Qed.

Lemma registered_on_elem (event : string) (handler : Handler) (c : Controller) :
  handler ∈ registered (final (on event handler c)) event.
Proof.
  rewrite registered_on.
  destruct (decide _) as [[_ Hnotin]|Hnot].
  - apply elem_of_app. right. by left.
  - destruct (decide (handler ∈ registered c event)); [done |].
    by destruct Hnot.
Qed.

(** After [on] the handler is subscribed, after [off] it is not; neither
    touches another event, and [off] removes no other handler. *)
Theorem on_off_membership (event : string) (handler : Handler) (c : Controller) :
  (handler ∈ registered (final (on event handler c)) event)
  ∧ (handler ∉ registered (final (off event handler c)) event)
  ∧ (∀ other, other ≠ handler →
       ((other ∈ registered (final (off event handler c)) event)
        ↔ (other ∈ registered c event)))
  ∧ (∀ event', event' ≠ event →
       registered (final (on event handler c)) event' = registered c event'
       ∧ registered (final (off event handler c)) event' = registered c event').
Proof.
  split; [| split; [| split]].
  - apply registered_on_elem.
  - rewrite registered_off. destruct (decide _); [| done].
    rewrite list_elem_of_filter. by intros [Hne _].
  - intros other Hne. rewrite registered_off. destruct (decide _); [| done].
    rewrite list_elem_of_filter. tauto.
  - intros event' Hne. rewrite registered_on, registered_off.
    destruct (decide (event = event' ∧ _)) as [[-> _]|_]; [done |].
    destruct (decide (event = event')) as [->|_]; done.
Qed.

Lemma on_off_membership_witness :
  ((3 ∈ registered (final (off "update" 5 (final (on "update" 3 (constructor true noOptions)))))
          "update")
   ↔ (3 ∈ registered (final (on "update" 3 (constructor true noOptions))) "update"))
  ∧ registered (final (on "update" 3 (constructor true noOptions))) "status"
    = registered (constructor true noOptions) "status".
Proof.
  destruct (on_off_membership "update" 5
              (final (on "update" 3 (constructor true noOptions))))
    as (_ & _ & Hother & _).
  destruct (on_off_membership "update" 3 (constructor true noOptions))
    as (_ & _ & _ & Hevents).
  split; [apply Hother; lia | apply Hevents; discriminate].
Defined.

(** Registering a handler twice is registering it once, and unregistering a
    handler that was just registered for the first time puts the subscribers
    back as they were. *)
Theorem on_idempotent_off_undoes (event : string) (handler : Handler)
    (c : Controller) :
  registered (final (on event handler (final (on event handler c)))) event
  = registered (final (on event handler c)) event
  ∧ (handler ∉ registered c event →
     registered (final (off event handler (final (on event handler c)))) event
     = registered c event).
Proof.
  split.
  - rewrite (registered_on event event handler (final (on event handler c))).
    destruct (decide _) as [[_ Hnotin]|_]; [| done].
    destruct Hnotin. apply registered_on_elem.
  - intros Hnotin. rewrite registered_off, registered_on.
    destruct (decide (event = event)); [| done].
    destruct (decide _) as [_|Hnot]; [| by destruct Hnot].
    rewrite list.filter_app, filter_cons_False, filter_nil, app_nil_r
      by (intros H; by apply H).
    by apply filter_other_id.
Qed.

Lemma on_idempotent_off_undoes_witness :
  registered (final (off "update" 3 (final (on "update" 3 (constructor true noOptions)))))
    "update"
  = registered (constructor true noOptions) "update".
Proof.
  apply (on_idempotent_off_undoes "update" 3 (constructor true noOptions)).
  vm_compute. by intros ?%elem_of_nil.
Defined.

End SubscriptionLaws.

(** ** Delivery at the edges *)

Section DeliveryEdges.

Import GestureController.

Lemma forEach_from_holes (bodies : Bodies) (event : string) (payload : Payload)
    (fuel index : nat) (c : Controller) (s : list (option nat)) :
  listeners c !! event = Some s →
  Set_values (drop index s) = [] →
  length s - index < fuel →
  forEach_from bodies fuel event payload index c = Some (c, []).
Proof.
  revert index. induction fuel as [|fuel IH]; intros index Hs Hnone Hfuel; [lia |].
  cbn [forEach_from]. rewrite Hs. cbn [mbind option_bind].
  destruct (s !! index) as [[handler|]|] eqn:Hat; [| | done].
  - rewrite (drop_S _ _ _ Hat) in Hnone. discriminate.
  - rewrite (drop_S _ _ _ Hat) in Hnone.
    apply lookup_lt_Some in Hat. apply IH; [done | done | lia].
Qed.

(** Emitting an event nobody is subscribed to calls no handler and leaves
    the controller as it is, whether the event was never subscribed to or all
    its handlers have unregistered. *)
Theorem emit_without_subscribers (bodies : Bodies) (fuel : nat) (event : string)
    (payload : Payload) (c : Controller) :
  registered c event = [] →
  length (default [] (listeners c !! event)) < fuel →
  _emit bodies fuel event payload c = Some (c, []).
Proof.
  unfold registered, _emit. intros Hnone Hfuel.
  destruct (listeners c !! event) as [s|] eqn:Hs; [| done].
  apply (forEach_from_holes _ _ _ _ _ _ s); [done | by rewrite drop_0 | ].
  change (length s < fuel) in Hfuel. lia.
Qed.

Lemma emit_without_subscribers_witness :
  _emit onceBodies 2 "update" (StatusPayload "p")
    (final (off "update" 3 (final (on "update" 3 (constructor true noOptions)))))
  = Some (final (off "update" 3 (final (on "update" 3 (constructor true noOptions)))),
          []).
Proof.
  apply emit_without_subscribers; [reflexivity | vm_compute; lia].
Defined.

Lemma Set_values_drop_delete (h : nat) (s : list (option nat)) (index : nat) :
  Set_values s = [h] → Set_values (drop index (Set_delete h s)) = [].
Proof.
  intros Hvalues.
  assert (Hnil : Set_values (Set_delete h s) = []).
  { rewrite Set_values_delete, Hvalues.
    by rewrite filter_cons_False, filter_nil by (intros H; by apply H). }
  rewrite <- (take_drop index (Set_delete h s)) in Hnil.
  unfold Set_values in *. rewrite omap_app in Hnil.
  by apply app_eq_nil in Hnil as [_ ?].
Qed.

(** The set of [event] after a handler that is its only subscriber has
    unregistered and registered itself again: its old entry is a hole, and it
    has a new entry at the end. *)
Lemma call_resubscribes (bodies : Bodies) (event : string) (payload : Payload)
    (handler : nat) (c : Controller) (s : list (option nat)) :
  resubscribes bodies event payload handler →
  listeners c !! event = Some s →
  Set_values s = [handler] →
  listeners (call bodies handler payload c) !! event
  = Some (Set_delete handler s ++ [Some handler]).
Proof.
  unfold resubscribes, call. intros -> Hs Hvalues. cbn [foldl perform].
  rewrite on_listeners, lookup_insert_eq, off_listeners, lookup_alter_eq, Hs.
  cbn [fmap option_fmap option_map default from_option id].
  f_equal. unfold Set_add, Set_has.
  rewrite bool_decide_eq_false_2; [done |].
  rewrite <- elem_of_Set_values, Set_values_delete, Hvalues.
  rewrite filter_cons_False, filter_nil by (intros H; by apply H).
  apply not_elem_of_nil.
Qed.

Lemma forEach_from_never_ends (bodies : Bodies) (event : string) (payload : Payload)
    (handler : nat) (fuel index : nat) (c : Controller) (s : list (option nat)) :
  resubscribes bodies event payload handler →
  listeners c !! event = Some s →
  Set_values s = [handler] →
  Set_values (drop index s) = [handler] →
  forEach_from bodies fuel event payload index c = None.
Proof.
  intros Hre. revert index c s.
  induction fuel as [|fuel IH]; intros index c s Hs Hvalues Hrest; [done |].
  cbn [forEach_from]. rewrite Hs. cbn [mbind option_bind].
  destruct (s !! index) as [[h|]|] eqn:Hat.
  - rewrite (drop_S _ _ _ Hat) in Hrest.
    unfold Set_values in Hrest. cbn in Hrest. injection Hrest as -> Hrest.
    pose proof (call_resubscribes bodies event payload handler c s Hre Hs Hvalues)
      as Hs'.
    rewrite (IH (S index) _ _ Hs'); [done | |].
    + unfold Set_values. rewrite omap_app.
      fold (Set_values (Set_delete handler s)).
      rewrite Set_values_delete, Hvalues.
      by rewrite filter_cons_False, filter_nil by (intros H; by apply H).
    + apply lookup_lt_Some in Hat.
      rewrite drop_app_le by (rewrite Set_delete_length; lia).
      unfold Set_values. rewrite omap_app.
      fold (Set_values (drop (S index) (Set_delete handler s))).
      by rewrite Set_values_drop_delete.
  - rewrite (drop_S _ _ _ Hat) in Hrest. by apply (IH (S index) c s).
  - apply lookup_ge_None in Hat. rewrite drop_ge in Hrest by done. discriminate.
Qed.

(** A handler that is the only subscriber of an event and, when called,
    unregisters and registers itself again is called again and again: the
    walk meets its new entry each time, and [_emit] does not return, however
    many steps it is given. *)
Theorem emit_never_ends_on_resubscription (bodies : Bodies) (event : string)
    (payload : Payload) (handler : Handler) (c : Controller) :
  resubscribes bodies event payload handler →
  registered c event = [handler] →
  ∀ fuel : nat, _emit bodies fuel event payload c = None.
Proof.
  unfold registered, _emit. intros Hre Hvalues fuel.
  destruct (listeners c !! event) as [s|] eqn:Hs; [| done].
  by apply (forEach_from_never_ends _ _ _ handler _ _ _ s).
Qed.

Lemma emit_never_ends_on_resubscription_witness :
  _emit resubscribingBodies 100 "update" (StatusPayload "p")
    (final (on "update" 3 (constructor true noOptions)))
  = None.
Proof.
  apply (emit_never_ends_on_resubscription resubscribingBodies "update"
           (StatusPayload "p") 3); reflexivity.
Defined.

End DeliveryEdges.

(** ** More on highlighting *)

Section HighlightLaws.

Import Starfield.

Lemma highlight_fresh (o : nat) (s : t) :
  highlighted s = None ∨ highlighted s = Some o →
  highlight (Some o) s
  = {| objects :=
         <[o := {| material := material (objects s o);
                   scale := multiplyScalar (scale (objects s o)) 1.3;
                   userData := set_isHighlighted (Some true)
                                 (userData (objects s o)) |}]> (objects s);
       materials :=
         match material (objects s o) with
         | Some m => <[m := {| emissive := ColorHex 0xf0f6ff;
                               emissiveIntensity := 1.6 |}]> (materials s)
         | None => materials s
         end;
       highlighted := Some o |}.
Proof.
  intros [Hh|Hh]; unfold highlight; rewrite Hh; [done |].
  by destruct (decide (o ≠ o)).
Qed.

(** Highlighting an object that is at its saved base state and clearing the
    highlight again leaves the starfield exactly as it was: every object and
    every material. *)
Theorem highlight_then_clear_roundtrip (s : t) (o : ObjectRef) :
  highlighted s = None → restored s o →
  let s' := clearHighlight (highlight (Some o) s) in
  highlighted s' = None
  ∧ (∀ o', objects s' o' = objects s o')
  ∧ (∀ m, materials s' m = materials s m).
Proof.
  intros Hnone (Hmark & Hscale & m & Hm & Hem & Hint) s'. subst s'.
  rewrite highlight_fresh by (by left).
  unfold clearHighlight. cbn [highlighted objects materials].
  rewrite fn_lookup_insert. cbn [material userData scale set_isHighlighted
    baseEmissive baseEmissiveIntensity baseScale].
  rewrite Hm, Hem, Hint, Hscale. cbn [highlighted objects materials].
  split; [done |]. split.
  - intros o'. destruct (decide (o = o')) as [<-|Hne].
    + rewrite fn_lookup_insert.
      destruct (objects s o) as [mat sc [be bi bs ih]]. cbn in *. by subst.
    + by rewrite !fn_lookup_insert_ne.
  - intros m'. destruct (decide (m = m')) as [<-|Hne].
    + rewrite fn_lookup_insert. by destruct (materials s m).
    + by rewrite !fn_lookup_insert_ne.
Qed.

Lemma highlight_then_clear_roundtrip_witness :
  highlighted (clearHighlight (highlight (Some 2) stars)) = None
  ∧ (∀ o', objects (clearHighlight (highlight (Some 2) stars)) o' = objects stars o')
  ∧ (∀ m, materials (clearHighlight (highlight (Some 2) stars)) m = materials stars m).
Proof.
  apply (highlight_then_clear_roundtrip stars 2); [reflexivity |].
  split; [reflexivity |]. split; [reflexivity |]. by exists 2.
Defined.

(** A call changes no object other than the one it highlights and the one
    that was highlighted before. *)
Theorem exec_leaves_other_objects (call : Call) (s : t) (o : ObjectRef) :
  call ≠ Highlight (Some o) → highlighted s ≠ Some o →
  objects (exec call s) o = objects s o.
Proof.
  intros Hcall Hprev.
  assert (Hclear : objects (clearHighlight s) o = objects s o).
  { unfold clearHighlight. destruct (highlighted s) as [h|] eqn:Hh; [| done].
    cbn. rewrite fn_lookup_insert_ne; [done | congruence]. }
  destruct call as [[o'|]|]; cbn [exec]; [| exact Hclear | exact Hclear].
  unfold highlight. cbn.
  rewrite fn_lookup_insert_ne by congruence.
  destruct (highlighted s) as [h|]; [| done].
  by destruct (decide (h ≠ o')).
Qed.

Lemma exec_leaves_other_objects_witness :
  objects (exec (Highlight (Some 1)) (highlight (Some 0) stars)) 5 = objects (highlight (Some 0) stars) 5.
Proof.
  apply (exec_leaves_other_objects (Highlight (Some 1)) (highlight (Some 0) stars) 5);
    discriminate.
Defined.

Lemma run_snoc (calls : list Call) (call : Call) (s : t) :
  run (calls ++ [call]) s = exec call (run calls s).
Proof. unfold run. by rewrite foldl_app. Qed.

Lemma replicate_snoc {A} (n : nat) (x : A) :
  replicate (S n) x = replicate n x ++ [x].
Proof.
  induction n as [|n IH]; [done |].
  cbn [replicate app] in *. f_equal. exact IH.
Qed.

(** Calling [highlight] on the same object [n] times in a row multiplies its
    scale by 1.3 [n] times; the saved base values are not touched, and a
    single [clearHighlight] puts the object back to them. *)
Theorem repeated_highlight_scales_and_clears (s : t) (o : ObjectRef) (n : nat) :
  highlighted s = None → hasBase s o →
  let s' := run (replicate (S n) (Highlight (Some o))) s in
  highlighted s' = Some o
  ∧ scale (objects s' o)
    = Nat.iter (S n) (λ v, multiplyScalar v 1.3) (scale (objects s o))
  ∧ userData (objects s' o) = set_isHighlighted (Some true) (userData (objects s o))
  ∧ restored (clearHighlight s') o.
Proof.
  intros Hnone Hbase.
  assert (Hrun : ∀ k, let s' := run (replicate (S k) (Highlight (Some o))) s in
            highlighted s' = Some o
            ∧ scale (objects s' o)
              = Nat.iter (S k) (λ v, multiplyScalar v 1.3) (scale (objects s o))
            ∧ userData (objects s' o)
              = set_isHighlighted (Some true) (userData (objects s o))
            ∧ material (objects s' o) = material (objects s o)).
  { induction k as [|k IH].
    - cbn [replicate run foldl exec Nat.iter]. rewrite highlight_fresh by (by left).
      cbn. rewrite fn_lookup_insert. by cbn.
    - rewrite replicate_snoc, run_snoc. cbn [exec].
      destruct IH as (Hh & Hsc & Hud & Hmat).
      rewrite highlight_fresh by (by right). cbn [highlighted objects].
      rewrite fn_lookup_insert. cbn [scale userData material].
      rewrite Hsc, Hud, Hmat. by cbn. }
  intros s'. destruct (Hrun n) as (Hh & Hsc & Hud & Hmat). fold s' in Hh, Hsc, Hud, Hmat.
  split; [exact Hh |]. split; [exact Hsc |]. split; [exact Hud |].
  apply clearHighlight_restores; [exact Hh |].
  destruct Hbase as (Hm & He & Hi & Hs).
  unfold hasBase. rewrite Hud, Hmat. by cbn.
Qed.

Lemma repeated_highlight_scales_and_clears_witness :
  highlighted (run (replicate 3 (Highlight (Some 0))) stars) = Some 0
  ∧ scale (objects (run (replicate 3 (Highlight (Some 0))) stars) 0)
    = Nat.iter 3 (λ v, multiplyScalar v 1.3) (scale (objects stars 0))
  ∧ userData (objects (run (replicate 3 (Highlight (Some 0))) stars) 0)
    = set_isHighlighted (Some true) (userData (objects stars 0))
  ∧ restored (clearHighlight (run (replicate 3 (Highlight (Some 0))) stars)) 0.
Proof.
  apply (repeated_highlight_scales_and_clears stars 0 2); [reflexivity |].
  repeat split; by eexists.
Defined.

End HighlightLaws.

(** ** The application *)

Section Application.

Import Config Main.
Local Open Scope Q_scope.

Lemma clamped_range (openness : Q) :
  0.055 <= Qmin (Qmax openness 0.055) 0.16 <= 0.16.
Proof.
  split; [| apply Q.le_min_r].
  apply Q.min_glb; [apply Q.le_max_r | by vm_compute].
Qed.

Lemma radius_of_clamped (clamped : Q) :
  28 + (clamped - 0.055) / (0.16 - 0.055) * (86 - 28)
  == 28 + (clamped - 0.055) * (58000 # 105).
Proof. field. Qed.

(** The zoom mapping never leaves [[minRadius, maxRadius]] and never
    decreases when the openness grows. *)
Theorem mapOpennessToRadius_range_monotone :
  (∀ openness : Q, 28 <= mapOpennessToRadius openness <= 86)
  ∧ (∀ o1 o2 : Q, o1 <= o2 → mapOpennessToRadius o1 <= mapOpennessToRadius o2).
Proof.
  split.
  - intros openness.
    rewrite mapOpennessToRadius_clamped, radius_of_clamped.
    destruct (clamped_range openness). lra.
  - intros o1 o2 Hle.
    rewrite !mapOpennessToRadius_clamped, !radius_of_clamped.
    assert (Qmin (Qmax o1 0.055) 0.16 <= Qmin (Qmax o2 0.055) 0.16).
    { apply Q.min_le_compat_r, Q.max_le_compat_r, Hle. }
    lra.
Qed.

Lemma mapOpennessToRadius_range_monotone_witness :
  mapOpennessToRadius 0.07 <= mapOpennessToRadius 0.12.
Proof.
  apply mapOpennessToRadius_range_monotone. by vm_compute.
Defined.

Lemma mapOpennessToRadius_range (openness : Q) :
  28 <= mapOpennessToRadius openness <= 86.
Proof.
  rewrite mapOpennessToRadius_clamped, radius_of_clamped.
  destruct (clamped_range openness). lra.
Qed.

Section WithPi.

Variable Math_PI : Q.
Hypothesis pi_large : 0.32 <= Math_PI.

Lemma updateCamera_inRange (sensitivity : Q)
    (movement : option GestureController.Vec2) (cs : CameraState) :
  cameraInRange Math_PI cs →
  cameraInRange Math_PI (updateCamera Math_PI sensitivity movement cs).
Proof.
  unfold cameraInRange, updateCamera, MathUtils_lerp.
  intros (Hr & Ht & Hp).
  destruct movement as [movement|]; cbn -[Qmin Qmax Qplus Qmult Qminus Qle].
  - split; [lra |]. split; [lra |]. split.
    + apply Q.min_glb; [apply Q.le_max_r | lra].
    + apply Q.le_min_r.
  - split; [lra |]. split; [lra | exact Hp].
Qed.

Lemma step_inRange (st : Step) (a a' : App) :
  cameraInRange Math_PI (cameraState a) →
  step Math_PI st a = Some a' →
  cameraInRange Math_PI (cameraState a').
Proof.
  intros Hrange. destruct st as [data intersects| |delta|value]; cbn [step].
  - unfold onUpdate.
    destruct (GestureController.u_present data); cbn [negb];
      [| by intros [= <-]].
    destruct (GestureController.u_openness data) as [openness|];
      cbn [mbind option_bind]; [| done].
    intros [= <-].
    set (cs1 := {| radius := radius (cameraState a);
                   theta := theta (cameraState a);
                   phi := phi (cameraState a);
                   targetRadius := _ |}).
    assert (H1 : cameraInRange Math_PI cs1).
    { destruct Hrange as (Hr & Ht & Hp).
      pose proof (mapOpennessToRadius_range openness).
      subst cs1. unfold cameraInRange, MathUtils_lerp.
      cbn -[Qmin Qmax Qplus Qmult Qminus Qle mapOpennessToRadius].
      split; [done |]. split; [lra | done]. }
    assert (H2 : ∀ b, cameraInRange Math_PI (cameraState b) →
                 cameraInRange Math_PI
                   (cameraState
                      match GestureController.u_gesture data,
                            GestureController.u_pointer data with
                      | GestureController.point, Some _ =>
                          updateSelection intersects b
                      | _, _ => b
                      end)).
    { intros b Hb.
      destruct (GestureController.u_gesture data); try done.
      destruct (GestureController.u_pointer data); [| done].
      unfold updateSelection. destruct intersects as [|object rest]; [done |].
      by destruct (decide _). }
    apply H2.
    destruct (GestureController.u_movement data) as [movement|]; [| exact H1].
    by apply updateCamera_inRange.
  - intros [= <-]. unfold highlightTimeout.
    by destruct (clearHighlightTimer a).
  - intros [= <-]. by apply updateCamera_inRange.
  - by intros [= <-].
Qed.

(** Whatever gesture events, timeouts and render frames arrive, the camera
    stays in range: radius and target radius within
    [[minRadius, maxRadius]], polar angle at least 0.16 away from both
    poles. *)
Theorem camera_stays_in_range (field : Starfield.t) (sts : list Step) (a : App) :
  steps Math_PI sts (app0 Math_PI field) = Some a →
  cameraInRange Math_PI (cameraState a).
Proof.
  assert (Hinit : cameraInRange Math_PI (cameraState (app0 Math_PI field))).
  { unfold cameraInRange. cbn -[Qle Qmult Qminus].
    repeat split; try (by vm_compute); lra. }
  revert Hinit. generalize (app0 Math_PI field). clear field.
  induction sts as [|st sts IH]; intros a0 Hinit; cbn [steps].
  - by intros [= <-].
  - destruct (step Math_PI st a0) as [a1|] eqn:Hstep; cbn [mbind option_bind];
      [| done].
    apply IH. by eapply step_inRange.
Qed.

End WithPi.

(** The handler of [update] accepts every object the controller emits: on a
    well-shaped object the arithmetic stays defined. *)
Theorem onUpdate_accepts_wellShaped (Math_PI : Q)
    (data : GestureController.UpdateData) (intersects : list nat) (a : App) :
  GestureController.wellShaped data →
  is_Some (onUpdate Math_PI data intersects a).
Proof.
  unfold GestureController.wellShaped, onUpdate.
  destruct (GestureController.u_present data); cbn [negb]; [| by eauto].
  intros (_ & _ & [openness ->] & _). cbn [mbind option_bind]. by eauto.
Qed.

Lemma onUpdate_accepts_wellShaped_witness :
  is_Some (onUpdate pi_approx pointing [3%nat] (app0 pi_approx Starfield.stars)).
Proof.
  apply onUpdate_accepts_wellShaped.
  split; [discriminate |]. split; [by eexists |]. by repeat split.
Defined.

Lemma camera_stays_in_range_witness :
  ∃ a, steps pi_approx sampleSteps (app0 pi_approx Starfield.stars) = Some a
       ∧ cameraInRange pi_approx (cameraState a).
Proof.
  eexists. split; [vm_compute; reflexivity |].
  eapply (camera_stays_in_range pi_approx ltac:(by vm_compute) Starfield.stars sampleSteps).
  vm_compute. reflexivity.
Defined.

End Application.

(** ** Selection in the application *)

Section Selection.

Import Config Main.
Local Open Scope Q_scope.

Lemma highlight_after_clear (s : Starfield.t) (h o : nat) :
  Starfield.highlighted s = Some h → h ≠ o →
  Starfield.highlight (Some o) s
  = Starfield.highlight (Some o) (Starfield.clearHighlight s).
Proof.
  intros Hh Hne. unfold Starfield.highlight. rewrite Hh.
  destruct (decide (h ≠ o)); [| done].
  by rewrite clearHighlight_highlighted.
Qed.

Lemma clearHighlight_scaledOnce (s : Starfield.t) :
  scaledOnce s → scaledOnce (Starfield.clearHighlight s).
Proof.
  intros Hinv o. destruct (Hinv o) as (base & Hbase & Hscale).
  unfold Starfield.clearHighlight.
  destruct (Starfield.highlighted s) as [h|] eqn:Hh;
    [| exists base; by rewrite Hh].
  cbn [Starfield.objects Starfield.highlighted].
  destruct (decide (h = o)) as [->|Hne].
  - rewrite fn_lookup_insert. cbn. rewrite Hbase. by exists base.
  - rewrite fn_lookup_insert_ne by done. exists base. split; [done |].
    rewrite Hscale. destruct (decide (Some h = Some o)); [congruence | done].
Qed.

Lemma highlight_scaledOnce (s : Starfield.t) (o : nat) :
  scaledOnce s → Starfield.highlighted s ≠ Some o →
  scaledOnce (Starfield.highlight (Some o) s).
Proof.
  assert (Hfresh : ∀ s, scaledOnce s → Starfield.highlighted s = None →
                        scaledOnce (Starfield.highlight (Some o) s)).
  { clear s. intros s Hinv Hnone o'.
    destruct (Hinv o') as (base & Hbase & Hscale).
    rewrite highlight_fresh by (by left).
    cbn [Starfield.objects Starfield.highlighted].
    rewrite Hnone in Hscale. cbn in Hscale.
    destruct (decide (o = o')) as [<-|Hne].
    - rewrite fn_lookup_insert. cbn. exists base. split; [done |].
      rewrite Hscale. by destruct (decide (Some o = Some o)).
    - rewrite fn_lookup_insert_ne by done. exists base. split; [done |].
      rewrite Hscale. destruct (decide (Some o = Some o')); [congruence | done]. }
  intros Hinv Hne.
  destruct (Starfield.highlighted s) as [h|] eqn:Hh; [| by apply Hfresh].
  rewrite (highlight_after_clear s h o Hh) by congruence.
  apply Hfresh; [by apply clearHighlight_scaledOnce |].
  apply clearHighlight_highlighted.
Qed.

(** What the application keeps true of its selection. *)
Lemma step_selection (Math_PI : Q) (st : Step) (a a' : App) :
  activeSelection a = Starfield.highlighted (starfield a) →
  scaledOnce (starfield a) →
  Starfield.onlyHighlightedMarked (starfield a) →
  step Math_PI st a = Some a' →
  activeSelection a' = Starfield.highlighted (starfield a')
  ∧ scaledOnce (starfield a')
  ∧ Starfield.onlyHighlightedMarked (starfield a').
Proof.
  intros Hsel Hscaled Hmarked.
  destruct st as [data intersects| |delta|value]; cbn [step].
  - unfold onUpdate.
    destruct (GestureController.u_present data); cbn [negb];
      [| by intros [= <-]].
    destruct (GestureController.u_openness data) as [openness|];
      cbn [mbind option_bind]; [| done].
    intros [= <-].
    set (b := match GestureController.u_movement data with
              | Some _ => _ | None => _ end).
    assert (Hb : activeSelection b = activeSelection a
                 ∧ starfield b = starfield a)
      by (subst b; by destruct (GestureController.u_movement data)).
    destruct Hb as [Hb1 Hb2]. clearbody b.
    destruct (GestureController.u_gesture data),
             (GestureController.u_pointer data);
      cbn beta iota; try (by rewrite Hb1, Hb2).
    unfold updateSelection.
    destruct intersects as [|object rest];
      cbn [activeSelection starfield scheduleHighlightClear];
      [by rewrite Hb1, Hb2 |].
    destruct (decide (activeSelection b ≠ Some object)) as [Hne|_];
      cbn [activeSelection starfield scheduleHighlightClear];
      [| by rewrite Hb1, Hb2].
    rewrite Hb1, Hb2 in *. split; [| split].
    + unfold Starfield.highlight.
      by destruct (Starfield.highlighted (starfield a)) as [h|];
        [destruct (decide (h ≠ object)) |].
    + apply highlight_scaledOnce; [done | congruence].
    + by apply highlight_preserves.
  - intros [= <-]. unfold highlightTimeout.
    destruct (clearHighlightTimer a); [| done]. cbn.
    split; [by rewrite clearHighlight_highlighted |].
    split; [by apply clearHighlight_scaledOnce | by apply clearHighlight_preserves].
  - by intros [= <-].
  - by intros [= <-].
Qed.

(** In the application the selection always is the highlighted object, at
    most one object is marked, and no object is ever scaled twice: starting
    from objects at their saved base scale, every object is at its base scale
    or, when it is the highlighted one, at 1.3 times it. *)
Theorem selection_mirrors_highlight (Math_PI : Q) (field : Starfield.t)
    (sts : list Step) (a : App) :
  Starfield.constructed field →
  (∀ o, Starfield.baseScale (Starfield.userData (Starfield.objects field o))
        = Some (Starfield.scale (Starfield.objects field o))) →
  steps Math_PI sts (app0 Math_PI field) = Some a →
  activeSelection a = Starfield.highlighted (starfield a)
  ∧ scaledOnce (starfield a)
  ∧ (∀ o1 o2, Starfield.marked (starfield a) o1 →
              Starfield.marked (starfield a) o2 → o1 = o2).
Proof.
  intros Hc Hbase Hsteps.
  assert (Hinv : activeSelection a = Starfield.highlighted (starfield a)
                 ∧ scaledOnce (starfield a)
                 ∧ Starfield.onlyHighlightedMarked (starfield a)).
  { assert (H0 : activeSelection (app0 Math_PI field)
                 = Starfield.highlighted (starfield (app0 Math_PI field))
                 ∧ scaledOnce (starfield (app0 Math_PI field))
                 ∧ Starfield.onlyHighlightedMarked (starfield (app0 Math_PI field))).
    { pose proof Hc as [Hnone _]. cbn. split; [by rewrite Hnone |].
      split; [| by apply constructed_onlyHighlightedMarked].
      intros o. eexists. split; [apply Hbase |].
      rewrite Hnone. by destruct (decide (None = Some o)). }
    revert H0 Hsteps. generalize (app0 Math_PI field).
    induction sts as [|st sts IH]; intros a0 H0; cbn [steps].
    - by intros [= <-].
    - destruct (step Math_PI st a0) as [a1|] eqn:Hstep; cbn [mbind option_bind];
        [| done].
      apply IH. destruct H0 as (? & ? & ?). by eapply step_selection. }
  destruct Hinv as (Hsel & Hscaled & Hmarked).
  split; [done |]. split; [done |].
  intros o1 o2 H1 H2. apply Hmarked in H1, H2. congruence.
Qed.

Lemma selection_mirrors_highlight_witness :
  ∃ a, steps pi_approx sampleSteps (app0 pi_approx Starfield.stars) = Some a
       ∧ activeSelection a = Starfield.highlighted (starfield a)
       ∧ scaledOnce (starfield a)
       ∧ (∀ o1 o2, Starfield.marked (starfield a) o1 →
                   Starfield.marked (starfield a) o2 → o1 = o2).
Proof.
  eexists. split; [vm_compute; reflexivity |].
  eapply (selection_mirrors_highlight pi_approx Starfield.stars sampleSteps).
  - split; [reflexivity | intros o; reflexivity].
  - intros o. reflexivity.
  - vm_compute. reflexivity.
Defined.

(** Only the render loop turns the starfield: over any steps, the rotation
    of the star group is the angle it started with, advanced by
    [delta * 0.045] at every render frame, in turn, and that of the
    background by [delta * 0.01]; gesture events, timeouts and settings do
    not move either. *)
Theorem rotation_only_by_render_frames (Math_PI : Q) (sts : list Step) (a a' : App) :
  steps Math_PI sts a = Some a' →
  Starfield.groupRotationY (rotation a')
  = turned 0.045 sts (Starfield.groupRotationY (rotation a))
  ∧ Starfield.backgroundRotationY (rotation a')
    = turned 0.01 sts (Starfield.backgroundRotationY (rotation a)).
Proof.
  revert a. induction sts as [|st sts IH]; intros a; cbn [steps turned].
  - by intros [= <-].
  - destruct (step Math_PI st a) as [a1|] eqn:Hstep; cbn [mbind option_bind];
      [| done].
    intros Hrest. destruct (IH a1 Hrest) as [Hg Hb]. rewrite Hg, Hb.
    assert (Hrot : match st with
                   | RenderLoop delta =>
                       rotation a1 = Starfield.update delta (rotation a)
                   | _ => rotation a1 = rotation a
                   end).
    { destruct st as [data intersects| |delta|value]; cbn [step] in Hstep.
      - unfold onUpdate in Hstep.
        destruct (GestureController.u_present data); cbn [negb] in Hstep;
          [| by injection Hstep as <-].
        destruct (GestureController.u_openness data); cbn in Hstep; [| done].
        injection Hstep as <-.
        destruct (GestureController.u_movement data),
                 (GestureController.u_gesture data),
                 (GestureController.u_pointer data); try done;
          unfold updateSelection; destruct intersects; try done;
          by destruct (decide _).
      - injection Hstep as <-. unfold highlightTimeout.
        by destruct (clearHighlightTimer a).
      - by injection Hstep as <-.
      - by injection Hstep as <-. }
    destruct st; by rewrite Hrot.
Qed.

Lemma rotation_only_by_render_frames_witness :
  ∃ a', steps pi_approx sampleSteps (app0 pi_approx Starfield.stars) = Some a'
        ∧ Starfield.groupRotationY (rotation a')
          = turned 0.045 sampleSteps
              (Starfield.groupRotationY (rotation (app0 pi_approx Starfield.stars)))
        ∧ Starfield.backgroundRotationY (rotation a')
          = turned 0.01 sampleSteps
              (Starfield.backgroundRotationY
                 (rotation (app0 pi_approx Starfield.stars))).
Proof.
  eexists. split; [vm_compute; reflexivity |].
  apply (rotation_only_by_render_frames pi_approx sampleSteps).
  vm_compute. reflexivity.
Defined.

End Selection.

(** ** Openness *)

Section Openness.

Import GestureController.
Local Open Scope Q_scope.

Variable Math_sqrt : Q → Q.
Hypothesis sqrt_nonneg : ∀ q : Q, 0 <= Math_sqrt q.

Lemma computeOpenness_unfolded (worldLandmarks : list Landmark) :
  computeOpenness Math_sqrt worldLandmarks
  = (wrist ← worldLandmarks !! 0%nat;
     tip8 ← worldLandmarks !! 8%nat;
     tip12 ← worldLandmarks !! 12%nat;
     tip16 ← worldLandmarks !! 16%nat;
     tip20 ← worldLandmarks !! 20%nat;
     Some ((0 + distance3 Math_sqrt wrist tip8 + distance3 Math_sqrt wrist tip12
            + distance3 Math_sqrt wrist tip16 + distance3 Math_sqrt wrist tip20)
           / 4)).
Proof.
  unfold computeOpenness. cbn [foldl].
  destruct (worldLandmarks !! 0%nat) as [wrist|]; [| done].
  destruct (worldLandmarks !! 8%nat) as [tip8|]; cbn [mbind option_bind].
  2: { by destruct (worldLandmarks !! 12%nat), (worldLandmarks !! 16%nat),
                   (worldLandmarks !! 20%nat). }
  destruct (worldLandmarks !! 12%nat) as [tip12|]; cbn [mbind option_bind].
  2: { by destruct (worldLandmarks !! 16%nat), (worldLandmarks !! 20%nat). }
  destruct (worldLandmarks !! 16%nat) as [tip16|]; cbn [mbind option_bind].
  2: { by destruct (worldLandmarks !! 20%nat). }
  by destruct (worldLandmarks !! 20%nat) as [tip20|].
Qed.

(** [computeOpenness] throws exactly when the array has fewer than 21
    landmarks, and what it returns is never negative. *)
Theorem computeOpenness_throws_iff_short (worldLandmarks : list Landmark) :
  (computeOpenness Math_sqrt worldLandmarks = None
   ↔ (length worldLandmarks < 21)%nat)
  ∧ (∀ raw, computeOpenness Math_sqrt worldLandmarks = Some raw → 0 <= raw).
Proof.
  rewrite computeOpenness_unfolded.
  destruct (decide (length worldLandmarks < 21)%nat) as [Hshort|Hlong].
  - assert (H20 : worldLandmarks !! 20%nat = None)
      by (apply lookup_ge_None; lia).
    rewrite H20.
    destruct (worldLandmarks !! 0%nat), (worldLandmarks !! 8%nat),
             (worldLandmarks !! 12%nat), (worldLandmarks !! 16%nat); by cbn.
  - destruct (lookup_lt_is_Some_2 worldLandmarks 0) as [wrist ->]; [lia |].
    destruct (lookup_lt_is_Some_2 worldLandmarks 8) as [tip8 ->]; [lia |].
    destruct (lookup_lt_is_Some_2 worldLandmarks 12) as [tip12 ->]; [lia |].
    destruct (lookup_lt_is_Some_2 worldLandmarks 16) as [tip16 ->]; [lia |].
    destruct (lookup_lt_is_Some_2 worldLandmarks 20) as [tip20 ->]; [lia |].
    cbn [mbind option_bind]. split; [by split |].
    intros raw [= <-]. unfold distance3.
    apply Qle_shift_div_l; [reflexivity |].
    repeat match goal with
           | |- context [Math_sqrt ?q] =>
               let H := fresh in
               pose proof (sqrt_nonneg q) as H; revert H;
               generalize (Math_sqrt q); intros ? ?
           end.
    lra.
Qed.

End Openness.

Lemma sqrtQ_nonneg (q : Q) : (0 <= GestureController.sqrtQ q)%Q.
Proof.
  unfold GestureController.sqrtQ, Qle. cbn. rewrite Z.mul_1_r. apply Z.sqrt_nonneg.
Qed.

Lemma computeOpenness_throws_iff_short_witness :
  GestureController.computeOpenness GestureController.sqrtQ
    (take 20 GestureController.nearlyStraightIndex) = None
  ∧ (0 <= 1 # 32)%Q.
Proof.
  destruct (computeOpenness_throws_iff_short GestureController.sqrtQ sqrtQ_nonneg
              (take 20 GestureController.nearlyStraightIndex)) as [Hnone _].
  destruct (computeOpenness_throws_iff_short GestureController.sqrtQ sqrtQ_nonneg
              GestureController.nearlyStraightIndex) as [_ Hpos].
  split; [apply Hnone; vm_compute; lia | apply Hpos; reflexivity].
Defined.

(** ** Drawing and stopping *)

Section Remaining.

Import GestureController.
Local Open Scope Q_scope.

Lemma connections_in_range (hand : list Landmark) :
  forallb (λ '(startIdx, endIdx),
             bool_decide (is_Some (hand !! startIdx))
             && bool_decide (is_Some (hand !! endIdx)))
          HAND_CONNECTIONS = true
  ↔ (21 ≤ length hand)%nat.
Proof.
  split.
  - intros Hall. rewrite forallb_forall in Hall.
    specialize (Hall (19, 20)%nat). cbn beta iota in Hall.
    apply andb_true_iff in Hall as [_ H20].
    + apply bool_decide_eq_true_1, lookup_lt_is_Some in H20. lia.
    + unfold HAND_CONNECTIONS. do 19 right. by left.
  - intros Hlen.
    assert (Hall : ∀ j, (j < 21)%nat → bool_decide (is_Some (hand !! j)) = true)
      by (intros j Hj; apply bool_decide_eq_true_2, lookup_lt_is_Some; lia).
    cbn [forallb HAND_CONNECTIONS]. by rewrite !Hall by lia.
Qed.

(** Drawing the detections throws exactly when there is a canvas context and
    the first hand found has fewer than 21 landmarks; in every case it leaves
    the controller alone and emits nothing. *)
Theorem drawDetections_throws_iff (r : DetectResult) (c : Controller) :
  (completion (_drawDetections r c) = Thrown
   ↔ ctx c = true
     ∧ ∃ hand rest, landmarks r = Some (hand :: rest)
                    ∧ (length hand < 21)%nat)
  ∧ final (_drawDetections r c) = c
  ∧ outputs (_drawDetections r c) = [].
Proof.
  unfold _drawDetections, hasHand. rewrite bind_this.
  destruct (ctx c); cbn [negb].
  2: { split; [| done]. split; [done | by intros [? _]]. }
  destruct (landmarks r) as [[|hand rest]|] eqn:Hl; cbn [negb].
  1, 3: split; [| done]; split; [done | by intros (_ & ? & ? & ? & _)].
  cbn [mbind option_bind head default from_option id].
  destruct (forallb _ _) eqn:Hall.
  - apply connections_in_range in Hall.
    split; [| done]. split; [done |].
    intros (_ & hand' & rest' & [= <- <-] & Hshort). lia.
  - split; [| done]. split; [| done]. intros _. split; [done |].
    exists hand, rest. split; [done |].
    destruct (decide (length hand < 21)%nat); [done |].
    rewrite (proj2 (connections_in_range hand)) in Hall by lia. discriminate.
Qed.

Lemma drawDetections_throws_iff_witness :
  completion (_drawDetections
                {| landmarks := Some [take 20 nearlyStraightIndex];
                   worldLandmarks := [nearlyStraightIndex] |} started)
  = Thrown.
Proof.
  apply drawDetections_throws_iff. split; [reflexivity |].
  eexists _, _. split; [reflexivity |]. vm_compute. lia.
Defined.

(** [stop] ends the loop at its next turn: [_loop] then requests nothing.
    It does not cancel a [processFrame] that was already requested, which
    still asks the detector and emits its [update]. *)
Theorem stop_is_cooperative (Math_sqrt : Q → Q) (c : Controller) :
  _loop (final (stop c))
  = {| completion := Normal (); final := final (stop c); outputs := [] |}
  ∧ (∀ frame, detectorRuns c frame = true → hasHand (results frame) = false →
       emitted (outputs (processFrame Math_sqrt frame (final (stop c))))
       = [("update", UpdatePayload noHandData)]).
Proof.
  split; [by unfold _loop; rewrite bind_this |].
  intros frame Hruns Hhand.
  by rewrite (processFrame_no_hand_result Math_sqrt _ frame Hhand).
Qed.

Lemma stop_is_cooperative_witness :
  emitted (outputs (processFrame sqrtQ (frameAt 1 noHandResult) (final (stop started))))
  = [("update", UpdatePayload noHandData)].
Proof.
  apply (stop_is_cooperative sqrtQ started); reflexivity.
Defined.

End Remaining.
